(** * Journalisering af projekt enlig forsoerger: the robot's process

    A shallow embedding of [robot_framework/process.py] and the properties
    of its per-email workflow.

    Python [str] values are modelled as [string]: the text in its UTF-8
    encoding, so the Danish letters of the fixed subject, folder and title
    strings are the byte sequences the source file holds.  Equality of two
    [str] values is equality of these byte strings. *)

From Stdlib Require Import String Ascii List ZArith Lia Bool Arith.
From Stdlib Require Import DecimalString DecimalZ.
Import ListNotations.

Open Scope string_scope.
Open Scope list_scope.

(* ================================================================== *)
(** ** Exceptions and results *)

(** Instances of Python's [Exception] that the process can meet.  The
    first three are raised by the interpreter and the standard library
    ([list] indexing, [dict] lookup, [datetime.fromisoformat]);
    [LibraryError] is any exception raised inside the mail gateway or
    case backend client, with its class name and its text. *)
Inductive exn : Type :=
| IndexError (msg : string)
| KeyError (key : string)
| ValueError (msg : string)
| LibraryError (cls : string) (msg : string).

(** [str(exc)]: the text of the exception.  A [KeyError] shows the [repr]
    of its key. *)
Definition str_exc (e : exn) : string :=
  match e with
  | IndexError m => m
  | KeyError k => ("'" ++ k ++ "'")%string
  | ValueError m => m
  | LibraryError _ m => m
  end.

Inductive Result (A : Type) : Type :=
| Ok (a : A)
| Raise (e : exn).
Arguments Ok {A} a.
Arguments Raise {A} e.

(** [str(n)] and the [{n}] of an f-string for an [int]. *)
Definition str_int (z : Z) : string := NilEmpty.string_of_int (Z.to_int z).

(* ================================================================== *)
(** ** Identifier extraction: [re.findall(r"CPR-nummer(.+?)Adresse", text)[0]] *)

Module Regex.

(** The two literals of the pattern. *)
Definition marker_open : string := "CPR-nummer".
Definition marker_close : string := "Adresse".

(** The line feed, the one character that [.] does not match. *)
Definition is_newline (c : ascii) : bool := Ascii.eqb c "010"%char.

(** Matching a literal at the head of [s]: the rest of [s] after it. *)
Fixpoint strip_prefix (p s : string) : option string :=
  match p with
  | EmptyString => Some s
  | String a p' =>
      match s with
      | EmptyString => None
      | String b s' => if Ascii.eqb a b then strip_prefix p' s' else None
      end
  end.

(** The tail of [(.+?)Adresse] once the group holds at least one
    character.  The quantifier is lazy: the literal is tried first, and
    only when it fails does the group take one more character, which must
    not be a line feed.  Returns what the group took from [s] and the text
    after the match. *)
Fixpoint lazy_tail (s : string) : option (string * string) :=
  match strip_prefix marker_close s with
  | Some rest => Some (EmptyString, rest)
  | None =>
      match s with
      | EmptyString => None
      | String c s' =>
          if is_newline c then None
          else match lazy_tail s' with
               | Some (g, rest) => Some (String c g, rest)
               | None => None
               end
      end
  end.

(** One attempt of the pattern at the head of [s]: group 1 and the text
    after the match. *)
Definition match_here (s : string) : option (string * string) :=
  match strip_prefix marker_open s with
  | Some (String c s') =>
      if is_newline c then None
      else match lazy_tail s' with
           | Some (g, rest) => Some (String c g, rest)
           | None => None
           end
  | _ => None
  end.

(** The scan of [re.findall]: attempts at successive positions, left to
    right; after a match the scan resumes where the match ended ([skip]
    counts the characters of the match still to pass over).  The result is
    the list of group 1 of every match. *)
Fixpoint findall_from (skip : nat) (s : string) : list string :=
  match s with
  | EmptyString => []
  | String _ s' =>
      match skip with
      | S k => findall_from k s'
      | O =>
          match match_here s with
          | Some (g, rest) =>
              g :: findall_from (String.length s - String.length rest - 1) s'
          | None => findall_from 0 s'
          end
      end
  end.

Definition findall (text : string) : list string := findall_from 0 text.

End Regex.

(** [xs[0]] on a list. *)
Definition index0 {A : Type} (xs : list A) : Result A :=
  match xs with
  | x :: _ => Ok x
  | [] => Raise (IndexError "list index out of range")
  end.

(** The mail gateway's [Email] object.  [text] stands for the value of
    [email.get_text()], the plain text of the body. *)
Record Email : Type := mkEmail {
  user : string;
  id : string;
  received_time : string;
  sender : string;
  subject : string;
  text : string
}.

Definition get_cpr_from_email (email : Email) : Result string :=
  let text := text email in
  index0 (Regex.findall text).


(* ================================================================== *)
(** ** Data of the three collaborators *)

(** [datetime]: the value of [datetime.fromisoformat] and [datetime.now]. *)
Record datetime : Type := mkDatetime {
  year : Z;
  month : Z;
  day : Z;
  hour : Z;
  minute : Z;
  second : Z;
  microsecond : Z;
  utcoffset : option Z
}.

(** Access objects handed to the gateway and backend calls. *)
Record GraphAccess : Type := mkGraphAccess { graph_token : string }.
Record NovaAccess : Type := mkNovaAccess { client_id : string; client_secret : string }.

(** A stored credential of the orchestrator. *)
Record Credential : Type := mkCredential { username : string; password : string }.

(** [robot_framework/config.py]: the three constants the process reads. *)
Record Config : Type := mkConfig {
  GRAPH_API : string;
  NOVA_API : string;
  QUEUE_NAME : string
}.

(** [kmd_nova.nova_objects]: the records the process fills in.  Field
    names carry the record's name as a prefix where Python reuses one
    attribute name ([uuid], [name], [title], [sensitivity]) in several
    classes. *)
Record CaseParty : Type := mkCaseParty {
  role : string;
  identification_type : string;
  identification : string;
  party_name : string;
  party_uuid : option string
}.

Record Department : Type := mkDepartment {
  department_id : Z;
  department_name : string;
  user_key : string
}.

Record Caseworker : Type := mkCaseworker {
  caseworker_uuid : string;
  caseworker_name : string;
  ident : string
}.

Record NovaCase : Type := mkNovaCase {
  case_uuid : string;
  case_title : string;
  case_date : datetime;
  progress_state : string;
  case_parties : list CaseParty;
  kle_number : string;
  proceeding_facet : string;
  case_sensitivity : string;
  responsible_department : Department;
  security_unit : Department;
  caseworker : Caseworker
}.

Record Document : Type := mkDocument {
  document_uuid : string;
  document_title : string;
  document_sensitivity : string;
  document_type : string;
  document_date : string;
  approved : bool;
  description : string
}.

(** [OpenOrchestrator.database.queues]: status and row of a queue
    element.  [element_id] is the row's key. *)
Inductive QueueStatus : Type := NEW | IN_PROGRESS | DONE | FAILED | ABANDONED.

Record QueueElement : Type := mkQueueElement {
  element_id : nat;
  queue_name : string;
  reference : string;
  status : QueueStatus;
  message : option string
}.

(* ================================================================== *)
(** ** The world: orchestrator state and the log of calls *)

(** Every call the process makes on a collaborator. *)
Inductive Call : Type :=
| LogTrace (msg : string)
| LogInfo (msg : string)
| GetCredential (name : string)
| AuthorizeByUsernamePassword (username password : string)
| NewNovaAccess (client_id client_secret : string)
| GetEmailsFromFolder (user folder : string)
| CreateQueueElement (queue_name reference : string)
| SetQueueElementStatus (element_id : nat) (status : QueueStatus) (message : option string)
| GetAddressByCpr (cpr : string)
| AddCase (case : NovaCase)
| GetEmailAsMime (email : Email)
| UploadDocument (mime : list Byte.byte) (filename : string)
| AttachDocumentToCase (case_uuid : string) (doc : Document)
| MoveEmail (email : Email) (folder : string).

(** A call together with how it ended: [None] when it returned, [Some e]
    when it raised [e].  A call that raised had no effect on its
    service. *)
Record Event : Type := mkEvent {
  call : Call;
  raised : option exn
}.

Record World : Type := mkWorld {
  queue : list QueueElement;      (* the orchestrator's queue table *)
  trace : list Event;             (* the calls made so far, oldest first *)
  uuid_draws : nat                (* how many times uuid.uuid4() ran *)
}.

(** What the surroundings answer.  The mail gateway and the case backend
    may raise on any call, and their answer may depend on everything that
    happened before (the world at the moment of the call).  The
    orchestrator's queue and log are modelled as state of the world and do
    not fail. *)
Record Env : Type := mkEnv {
  env_fromisoformat : string -> Result datetime;
  env_now : World -> datetime;
  env_uuid4 : nat -> string;
  env_get_credential : World -> string -> Result Credential;
  env_authorize : World -> string -> string -> Result GraphAccess;
  env_nova_access : World -> string -> string -> Result NovaAccess;
  env_get_emails_from_folder : World -> string -> string -> GraphAccess -> Result (list Email);
  env_get_address_by_cpr : World -> string -> NovaAccess -> Result (list (string * string));
  env_add_case : World -> NovaCase -> NovaAccess -> Result unit;
  env_get_email_as_mime : World -> Email -> GraphAccess -> Result (list Byte.byte);
  env_upload_document : World -> list Byte.byte -> string -> NovaAccess -> Result string;
  env_attach_document_to_case : World -> string -> Document -> NovaAccess -> Result unit;
  env_move_email : World -> Email -> string -> GraphAccess -> Result unit
}.

(* ================================================================== *)
(** ** State and exception monad *)

(** A computation runs in a world and ends with a value or a raised
    exception; the world it leaves keeps everything done before the
    exception. *)
Definition M (A : Type) : Type := World -> Result A * World.

Definition ret {A : Type} (a : A) : M A := fun w => (Ok a, w).

Definition raise {A : Type} (e : exn) : M A := fun w => (Raise e, w).

Definition lift {A : Type} (r : Result A) : M A := fun w => (r, w).

Definition bind {A B : Type} (m : M A) (f : A -> M B) : M B :=
  fun w =>
    match m w with
    | (Ok a, w') => f a w'
    | (Raise e, w') => (Raise e, w')
    end.

(** [try: m  except Exception as exc: h exc]. *)
Definition try_except {A : Type} (m : M A) (h : exn -> M A) : M A :=
  fun w =>
    match m w with
    | (Ok a, w') => (Ok a, w')
    | (Raise e, w') => h e w'
    end.

Declare Scope monad_scope.
Delimit Scope monad_scope with monad.
Notation "x <- c1 ;; c2" := (bind c1 (fun x => c2))
  (at level 61, c1 at next level, right associativity) : monad_scope.
Notation "c1 ;; c2" := (bind c1 (fun _ => c2))
  (at level 61, right associativity) : monad_scope.
Open Scope monad_scope.

(** [for x in xs: body(x)]: an exception leaves the loop. *)
Fixpoint for_each {A : Type} (xs : list A) (body : A -> M unit) : M unit :=
  match xs with
  | [] => ret tt
  | x :: rest => body x ;; for_each rest body
  end.

Definition outcome {A : Type} (r : Result A) : option exn :=
  match r with
  | Ok _ => None
  | Raise e => Some e
  end.

Definition log (ev : Event) (w : World) : World :=
  {| queue := queue w; trace := trace w ++ [ev]; uuid_draws := uuid_draws w |}.

(** A call on the mail gateway or the case backend: the environment
    answers, and the call is logged with its outcome. *)
Definition external {A : Type} (c : Call) (answer : World -> Result A) : M A :=
  fun w => let r := answer w in (r, log (mkEvent c (outcome r)) w).

(** [d[key]] on a dict. *)
Fixpoint getitem (d : list (string * string)) (key : string) : Result string :=
  match d with
  | [] => Raise (KeyError key)
  | (k, v) :: d' => if String.eqb k key then Ok v else getitem d' key
  end.

(* ================================================================== *)
(** ** The process *)

Section Process.

Variable config : Config.
Variable env : Env.

(** *** Orchestrator connection *)

Definition log_trace (msg : string) : M unit :=
  fun w => (Ok tt, log (mkEvent (LogTrace msg) None) w).

Definition log_info (msg : string) : M unit :=
  fun w => (Ok tt, log (mkEvent (LogInfo msg) None) w).

Definition get_credential (name : string) : M Credential :=
  external (GetCredential name) (fun w => env_get_credential env w name).

(** A key no row of the table has. *)
Definition fresh_id (q : list QueueElement) : nat :=
  S (list_max (map element_id q)).

(** A new row, in status [NEW] and without message; the row is returned. *)
Definition create_queue_element (queue_name reference : string) : M QueueElement :=
  fun w =>
    let el := {| element_id := fresh_id (queue w);
                 queue_name := queue_name;
                 reference := reference;
                 status := NEW;
                 message := None |} in
    (Ok el,
     {| queue := queue w ++ [el];
        trace := trace w ++ [mkEvent (CreateQueueElement queue_name reference) None];
        uuid_draws := uuid_draws w |}).

(** The row with the given key takes the status, and the message when
    one is given. *)
Definition update_status (element_id0 : nat) (st : QueueStatus) (msg : option string)
    (el : QueueElement) : QueueElement :=
  if Nat.eqb (element_id el) element_id0
  then {| element_id := element_id el;
          queue_name := queue_name el;
          reference := reference el;
          status := st;
          message := match msg with Some m => Some m | None => message el end |}
  else el.

Definition set_queue_element_status (element_id0 : nat) (st : QueueStatus)
    (msg : option string) : M unit :=
  fun w =>
    (Ok tt,
     {| queue := map (update_status element_id0 st msg) (queue w);
        trace := trace w ++ [mkEvent (SetQueueElementStatus element_id0 st msg) None];
        uuid_draws := uuid_draws w |}).

(** *** Standard library *)

Definition fromisoformat (s : string) : M datetime := lift (env_fromisoformat env s).

Definition datetime_now : M datetime := fun w => (Ok (env_now env w), w).

(** [str(uuid.uuid4())]: the next identifier of the generator. *)
Definition uuid4 : M string :=
  fun w =>
    (Ok (env_uuid4 env (uuid_draws w)),
     {| queue := queue w; trace := trace w; uuid_draws := S (uuid_draws w) |}).

(** *** Mail gateway ([graph.authentication], [graph.mail]) *)

(** [authorize_by_username_password(username, **json.loads(password))]:
    decoding the stored secret and logging in count as one call. *)
Definition authorize_by_username_password (username password : string) : M GraphAccess :=
  external (AuthorizeByUsernamePassword username password)
           (fun w => env_authorize env w username password).

Definition get_emails_from_folder (user folder : string) (graph_access : GraphAccess)
    : M (list Email) :=
  external (GetEmailsFromFolder user folder)
           (fun w => env_get_emails_from_folder env w user folder graph_access).

Definition get_email_as_mime (email : Email) (graph_access : GraphAccess)
    : M (list Byte.byte) :=
  external (GetEmailAsMime email) (fun w => env_get_email_as_mime env w email graph_access).

Definition move_email (email : Email) (folder_path : string) (graph_access : GraphAccess)
    : M unit :=
  external (MoveEmail email folder_path)
           (fun w => env_move_email env w email folder_path graph_access).

(** *** Case backend ([kmd_nova]) *)

Definition new_nova_access (client_id client_secret : string) : M NovaAccess :=
  external (NewNovaAccess client_id client_secret)
           (fun w => env_nova_access env w client_id client_secret).

Definition get_address_by_cpr (cpr : string) (nova_access : NovaAccess)
    : M (list (string * string)) :=
  external (GetAddressByCpr cpr) (fun w => env_get_address_by_cpr env w cpr nova_access).

Definition add_case (case : NovaCase) (nova_access : NovaAccess) : M unit :=
  external (AddCase case) (fun w => env_add_case env w case nova_access).

Definition upload_document (mime : list Byte.byte) (filename : string)
    (nova_access : NovaAccess) : M string :=
  external (UploadDocument mime filename)
           (fun w => env_upload_document env w mime filename nova_access).

Definition attach_document_to_case (case_uuid0 : string) (doc : Document)
    (nova_access : NovaAccess) : M unit :=
  external (AttachDocumentToCase case_uuid0 doc)
           (fun w => env_attach_document_to_case env w case_uuid0 doc nova_access).

(** *** [process.py] *)

Definition source_folder : string :=
  "Indbakke/Enlig forsørgerprojekt/Kvitteringer til journalisering".

Definition journalized_folder : string :=
  "Indbakke/Enlig forsørgerprojekt/Journaliserede kvitteringer".

(** The test of the list comprehension in [get_emails]. *)
Definition selected (mail : Email) : bool :=
  String.eqb (sender mail) "noreply@aarhus.dk"
  && String.eqb (subject mail) "Erklæring - økonomisk fripladstilskud".

Definition get_emails (graph_access : GraphAccess) : M (list Email) :=
  mails <- get_emails_from_folder "kontrolteamet@mkb.aarhus.dk" source_folder graph_access ;;
  let mails := filter selected mails in
  ret mails.

Definition create_case (cpr : string) (case_date0 : datetime) (nova_access : NovaAccess)
    : M NovaCase :=
  address <- get_address_by_cpr cpr nova_access ;;
  name <- lift (getitem address "name") ;;
  let case_party :=
    {| role := "Primær";
       identification_type := "CprNummer";
       identification := cpr;
       party_name := name;
       party_uuid := None |} in
  now <- datetime_now ;;
  let case_title0 := ("Projekt enlig forsørger " ++ str_int (year now))%string in
  let department :=
    {| department_id := 70363;
       department_name := "Kontrolteamet";
       user_key := "4BKONTROL" |} in
  let caseworker0 :=
    {| caseworker_uuid := "3eb31cbb-d6dc-4b01-9eec-0b415f5b89cb";
       caseworker_name := "Rpabruger Rpa15 - MÅ IKKE SLETTES RITM0055928";
       ident := "AZRPA15" |} in
  new_uuid <- uuid4 ;;
  let case :=
    {| case_uuid := new_uuid;
       case_title := case_title0;
       case_date := case_date0;
       progress_state := "Afsluttet";
       case_parties := [case_party];
       kle_number := "32.45.04";
       proceeding_facet := "G01";
       case_sensitivity := "Fortrolige";
       responsible_department := department;
       security_unit := department;
       caseworker := caseworker0 |} in
  add_case case nova_access ;;
  ret case.

Definition attach_email_to_case (email : Email) (case : NovaCase)
    (graph_access : GraphAccess) (nova_access : NovaAccess) : M unit :=
  mime <- get_email_as_mime email graph_access ;;
  doc_uuid <- upload_document mime "Email kvittering.eml" nova_access ;;
  let doc :=
    {| document_uuid := doc_uuid;
       document_title := "Email kvittering";
       document_sensitivity := "Fortrolige";
       document_type := "Indgående";
       document_date := received_time email;
       approved := true;
       description := "Automatisk journaliseret af robot." |} in
  attach_document_to_case (case_uuid case) doc nova_access.

(** The body of the [try] in [handle_email]. *)
Definition guarded_steps (email : Email) (cpr : string) (case_date0 : datetime)
    (graph_access : GraphAccess) (nova_access : NovaAccess) : M unit :=
  case <- create_case cpr case_date0 nova_access ;;
  attach_email_to_case email case graph_access nova_access ;;
  move_email email journalized_folder graph_access.

Definition handle_email (email : Email) (graph_access : GraphAccess)
    (nova_access : NovaAccess) : M unit :=
  cpr <- lift (get_cpr_from_email email) ;;
  case_date0 <- fromisoformat (received_time email) ;;
  queue_element <- create_queue_element (QUEUE_NAME config)
                     (cpr ++ " - " ++ received_time email)%string ;;
  try_except
    (guarded_steps email cpr case_date0 graph_access nova_access)
    (fun exc =>
       set_queue_element_status (element_id queue_element) FAILED (Some (str_exc exc)) ;;
       raise exc) ;;
  set_queue_element_status (element_id queue_element) DONE None.

Definition process : M unit :=
  log_trace "Running process." ;;
  graph_creds <- get_credential (GRAPH_API config) ;;
  graph_access <- authorize_by_username_password (username graph_creds) (password graph_creds) ;;
  nova_creds <- get_credential (NOVA_API config) ;;
  nova_access <- new_nova_access (username nova_creds) (password nova_creds) ;;
  emails <- get_emails graph_access ;;
  log_info ("Number of emails to journalize: " ++ str_int (Z.of_nat (List.length emails)))%string ;;
  for_each emails (fun email => handle_email email graph_access nova_access).

End Process.

(* ================================================================== *)
(** ** Meaning of the pattern *)

Fixpoint has_newline (s : string) : bool :=
  match s with
  | EmptyString => false
  | String c s' => Regex.is_newline c || has_newline s'
  end.

(** [occurrence text pre g post]: the pattern [CPR-nummer(.+?)Adresse]
    matches in [text] right after [pre] with [g] as group 1, and [post]
    follows the match.  The group is one or more characters other than the
    line feed. *)
Definition occurrence (text pre g post : string) : Prop :=
  text = (pre ++ "CPR-nummer" ++ g ++ "Adresse" ++ post)%string
  /\ g <> EmptyString
  /\ has_newline g = false.

(** [occurs m s]: the literal [m] stands somewhere in [s]. *)
Fixpoint occurs (m s : string) : bool :=
  match Regex.strip_prefix m s with
  | Some _ => true
  | None =>
      match s with
      | EmptyString => false
      | String _ s' => occurs m s'
      end
  end.

(** The email with [extra] added at the end of its body text. *)
Definition with_text_appended (email : Email) (extra : string) : Email :=
  {| user := user email;
     id := id email;
     received_time := received_time email;
     sender := sender email;
     subject := subject email;
     text := (text email ++ extra)%string |}.

(* ================================================================== *)
(** ** Reading the log of calls *)

Definition returned (c : Call) : Event := mkEvent c None.
Definition failed (c : Call) (e : exn) : Event := mkEvent c (Some e).

Definition has_returned (ev : Event) : bool :=
  match raised ev with None => true | Some _ => false end.

(** Kinds of calls. *)
Definition is_create_queue_element (ev : Event) : bool :=
  match call ev with CreateQueueElement _ _ => true | _ => false end.

Definition is_set_status (ev : Event) : bool :=
  match call ev with SetQueueElementStatus _ _ _ => true | _ => false end.

Definition is_add_case (ev : Event) : bool :=
  match call ev with AddCase _ => true | _ => false end.


Definition is_attach_document (ev : Event) : bool :=
  match call ev with AttachDocumentToCase _ _ => true | _ => false end.

Definition is_move_email (ev : Event) : bool :=
  match call ev with MoveEmail _ _ => true | _ => false end.

(** The calls of [attach_email_to_case]. *)
Definition is_attachment_step (ev : Event) : bool :=
  match call ev with
  | GetEmailAsMime _ | UploadDocument _ _ | AttachDocumentToCase _ _ => true
  | _ => false
  end.

(** Effects that took place: the call returned. *)
Definition case_created (ev : Event) : bool := is_add_case ev && has_returned ev.
Definition document_attached (ev : Event) : bool := is_attach_document ev && has_returned ev.
Definition email_moved (ev : Event) : bool := is_move_email ev && has_returned ev.

Definition count (p : Event -> bool) (tr : list Event) : nat :=
  List.length (filter p tr).

(** In [tr], every event satisfying [q] comes after one satisfying [p]. *)
Definition preceded_by (p q : Event -> bool) (tr : list Event) : Prop :=
  forall i ev, nth_error tr i = Some ev -> q ev = true ->
    exists j ev', j < i /\ nth_error tr j = Some ev' /\ p ev' = true.

(** The status and the message the queue element of an email ends with,
    by the outcome of the [try] body. *)
Definition final_status (r : Result unit) : QueueStatus :=
  match r with Ok _ => DONE | Raise _ => FAILED end.

Definition final_message (r : Result unit) : option string :=
  match r with Ok _ => None | Raise exc => Some (str_exc exc) end.

(** The runs of the [try] body of [handle_email] for one email: how it
    ends and the calls it makes, one constructor for each place where it
    can stop. *)
Inductive guarded_run (email : Email) (cpr : string) : Result unit -> list Event -> Prop :=
| run_lookup_raises (e : exn) :
    guarded_run email cpr (Raise e)
      [failed (GetAddressByCpr cpr) e]
| run_name_missing :
    guarded_run email cpr (Raise (KeyError "name"))
      [returned (GetAddressByCpr cpr)]
| run_add_case_raises (case : NovaCase) (e : exn) :
    guarded_run email cpr (Raise e)
      [returned (GetAddressByCpr cpr); failed (AddCase case) e]
| run_mime_raises (case : NovaCase) (e : exn) :
    guarded_run email cpr (Raise e)
      [returned (GetAddressByCpr cpr); returned (AddCase case);
       failed (GetEmailAsMime email) e]
| run_upload_raises (case : NovaCase) (mime : list Byte.byte) (e : exn) :
    guarded_run email cpr (Raise e)
      [returned (GetAddressByCpr cpr); returned (AddCase case);
       returned (GetEmailAsMime email);
       failed (UploadDocument mime "Email kvittering.eml") e]
| run_attach_raises (case : NovaCase) (mime : list Byte.byte) (doc : Document) (e : exn) :
    guarded_run email cpr (Raise e)
      [returned (GetAddressByCpr cpr); returned (AddCase case);
       returned (GetEmailAsMime email);
       returned (UploadDocument mime "Email kvittering.eml");
       failed (AttachDocumentToCase (case_uuid case) doc) e]
| run_move_raises (case : NovaCase) (mime : list Byte.byte) (doc : Document) (e : exn) :
    guarded_run email cpr (Raise e)
      [returned (GetAddressByCpr cpr); returned (AddCase case);
       returned (GetEmailAsMime email);
       returned (UploadDocument mime "Email kvittering.eml");
       returned (AttachDocumentToCase (case_uuid case) doc);
       failed (MoveEmail email "Indbakke/Enlig forsørgerprojekt/Journaliserede kvitteringer") e]
| run_completes (case : NovaCase) (mime : list Byte.byte) (doc : Document) :
    guarded_run email cpr (Ok tt)
      [returned (GetAddressByCpr cpr); returned (AddCase case);
       returned (GetEmailAsMime email);
       returned (UploadDocument mime "Email kvittering.eml");
       returned (AttachDocumentToCase (case_uuid case) doc);
       returned (MoveEmail email "Indbakke/Enlig forsørgerprojekt/Journaliserede kvitteringer")].

(** The selection of the specification: [kept] is [mails] without the
    emails whose sender or subject differs from the fixed ones, in the
    order of [mails]. *)
Inductive selection : list Email -> list Email -> Prop :=
| selection_nil : selection [] []
| selection_keep (mail : Email) (mails kept : list Email) :
    sender mail = "noreply@aarhus.dk" ->
    subject mail = "Erklæring - økonomisk fripladstilskud" ->
    selection mails kept ->
    selection (mail :: mails) (mail :: kept)
| selection_drop (mail : Email) (mails kept : list Email) :
    ~ (sender mail = "noreply@aarhus.dk"
       /\ subject mail = "Erklæring - økonomisk fripladstilskud") ->
    selection mails kept ->
    selection (mail :: mails) kept.

(* ================================================================== *)
(** ** Sample surroundings *)

(** A mailbox with receipts, a configuration and an environment whose
    gateway and backend answer every call, unless [fault] names an
    exception for it.  They serve to run the process on concrete input. *)
Module Sample.

Definition config : Config :=
  {| GRAPH_API := "Graph API";
     NOVA_API := "Nova API";
     QUEUE_NAME := "Journalisering af projekt enlig forsoerger" |}.

Definition receipt (id0 received cpr : string) : Email :=
  {| user := "kontrolteamet@mkb.aarhus.dk";
     id := id0;
     received_time := received;
     sender := "noreply@aarhus.dk";
     subject := "Erklæring - økonomisk fripladstilskud";
     text := ("Navn Anna Jensen CPR-nummer" ++ cpr ++ "Adresse Vej 1, 8000 Aarhus C")%string |}.

Definition email1 : Email := receipt "AAMkAD-1" "2024-03-05T09:12:44+00:00" "0101011234".
Definition email2 : Email := receipt "AAMkAD-2" "2024-03-05T10:30:00+00:00" "0202021234".
Definition email3 : Email := receipt "AAMkAD-3" "2024-03-06T08:00:01+00:00" "0303031234".

(** An email of the folder that is not a receipt. *)
Definition newsletter : Email :=
  {| user := "kontrolteamet@mkb.aarhus.dk";
     id := "AAMkAD-4";
     received_time := "2024-03-06T11:00:00+00:00";
     sender := "nyhedsbrev@aarhus.dk";
     subject := "Erklæring - økonomisk fripladstilskud";
     text := "Nyt fra kommunen" |}.

(** A receipt whose body has no identifier. *)
Definition blank_receipt : Email :=
  {| user := "kontrolteamet@mkb.aarhus.dk";
     id := "AAMkAD-5";
     received_time := "2024-03-05T09:12:44+00:00";
     sender := "noreply@aarhus.dk";
     subject := "Erklæring - økonomisk fripladstilskud";
     text := "Tak for din erklæring." |}.

(** [datetime.fromisoformat] on the received times above. *)
Definition timestamps : list (string * datetime) :=
  [ ("2024-03-05T09:12:44+00:00", mkDatetime 2024 3 5 9 12 44 0 (Some 0%Z));
    ("2024-03-05T10:30:00+00:00", mkDatetime 2024 3 5 10 30 0 0 (Some 0%Z));
    ("2024-03-06T08:00:01+00:00", mkDatetime 2024 3 6 8 0 1 0 (Some 0%Z));
    ("2024-03-06T11:00:00+00:00", mkDatetime 2024 3 6 11 0 0 0 (Some 0%Z)) ].

Fixpoint fromisoformat (table : list (string * datetime)) (s : string) : Result datetime :=
  match table with
  | [] => Raise (ValueError ("Invalid isoformat string: '" ++ s ++ "'")%string)
  | (k, d) :: table' => if String.eqb k s then Ok d else fromisoformat table' s
  end.

Definition answer {A : Type} (fault : Call -> option exn) (c : Call) (a : A) : Result A :=
  match fault c with
  | Some e => Raise e
  | None => Ok a
  end.

Definition env (inbox : list Email) (fault : Call -> option exn) : Env :=
  {| env_fromisoformat := fromisoformat timestamps;
     env_now := fun _ => mkDatetime 2024 3 7 6 0 0 0 None;
     env_uuid4 := fun n => ("7d4440f2-5a3c-4b8e-9d1f-" ++ str_int (Z.of_nat n))%string;
     env_get_credential := fun _ name =>
       answer fault (GetCredential name) (mkCredential "robot" "{}");
     env_authorize := fun _ u p =>
       answer fault (AuthorizeByUsernamePassword u p) (mkGraphAccess "graph-token");
     env_nova_access := fun _ u p =>
       answer fault (NewNovaAccess u p) (mkNovaAccess u p);
     env_get_emails_from_folder := fun _ u f _ =>
       answer fault (GetEmailsFromFolder u f) inbox;
     env_get_address_by_cpr := fun _ cpr _ =>
       answer fault (GetAddressByCpr cpr) [("name", "Anna Jensen"); ("address", "Vej 1")];
     env_add_case := fun _ c _ => answer fault (AddCase c) tt;
     env_get_email_as_mime := fun _ e _ =>
       answer fault (GetEmailAsMime e) [Byte.x4d; Byte.x49; Byte.x4d; Byte.x45];
     env_upload_document := fun _ m f _ =>
       answer fault (UploadDocument m f) ("doc-for-" ++ f)%string;
     env_attach_document_to_case := fun _ u d _ => answer fault (AttachDocumentToCase u d) tt;
     env_move_email := fun _ e f _ => answer fault (MoveEmail e f) tt |}.

Definition no_fault : Call -> option exn := fun _ => None.

(** The case backend refuses the document of the email received at the
    given time. *)
Definition attach_fault (received : string) : Call -> option exn :=
  fun c =>
    match c with
    | AttachDocumentToCase _ doc =>
        if String.eqb (document_date doc) received
        then Some (LibraryError "HTTPError" "500 Server Error: Internal Server Error")
        else None
    | _ => None
    end.

(** The case backend raises an exception without text when a case is
    added. *)
Definition silent_fault : Call -> option exn :=
  fun c =>
    match c with
    | AddCase _ => Some (LibraryError "TimeoutError" "")
    | _ => None
    end.

Definition graph_access : GraphAccess := mkGraphAccess "graph-token".
Definition nova_access : NovaAccess := mkNovaAccess "robot" "{}".

(** An orchestrator with an empty queue, before any call. *)
Definition start : World := {| queue := []; trace := []; uuid_draws := 0 |}.

(** Handling one email when the backend has the given fault. *)
Definition handle (fault : Call -> option exn) (email : Email) : M unit :=
  handle_email config (env [] fault) email graph_access nova_access.

(** The folder as the gateway lists it in the runs below. *)
Definition inbox : list Email := [email1; newsletter; email2; email3].

(** A case as [create_case] makes it for the first receipt. *)
Definition case1 : NovaCase :=
  {| case_uuid := "7d4440f2-5a3c-4b8e-9d1f-0";
     case_title := "Projekt enlig forsørger 2024";
     case_date := mkDatetime 2024 3 5 9 12 44 0 (Some 0%Z);
     progress_state := "Afsluttet";
     case_parties := [mkCaseParty "Primær" "CprNummer" "0101011234" "Anna Jensen" None];
     kle_number := "32.45.04";
     proceeding_facet := "G01";
     case_sensitivity := "Fortrolige";
     responsible_department := mkDepartment 70363 "Kontrolteamet" "4BKONTROL";
     security_unit := mkDepartment 70363 "Kontrolteamet" "4BKONTROL";
     caseworker :=
       mkCaseworker "3eb31cbb-d6dc-4b01-9eec-0b415f5b89cb"
         "Rpabruger Rpa15 - MÅ IKKE SLETTES RITM0055928" "AZRPA15" |}.

End Sample.

(* ================================================================== *)
(** ** Reading a whole run *)

(** The calls of the [try] body of [handle_email], in the order of the
    source: the person lookup and the case, the three calls of the
    attachment, on the identifier of that case, and the move. *)
Definition guarded_calls (email : Email) (cpr : string) (case : NovaCase)
    (mime : list Byte.byte) (doc : Document) : list Call :=
  [GetAddressByCpr cpr;
   AddCase case;
   GetEmailAsMime email;
   UploadDocument mime "Email kvittering.eml";
   AttachDocumentToCase (case_uuid case) doc;
   MoveEmail email "Indbakke/Enlig forsørgerprojekt/Journaliserede kvitteringer"].

(** Status updates by the status asked for, whether or not the call
    returned. *)
Definition is_done_update (ev : Event) : bool :=
  match call ev with SetQueueElementStatus _ DONE _ => true | _ => false end.

Definition is_failed_update (ev : Event) : bool :=
  match call ev with SetQueueElementStatus _ FAILED _ => true | _ => false end.

(** A queue element was created: the call returned. *)
Definition queue_element_created (ev : Event) : bool :=
  is_create_queue_element ev && has_returned ev.

(** The identifiers of the cases handed to the backend, whether the call
    returned or not, oldest first. *)
Fixpoint submitted_uuids (tr : list Event) : list string :=
  match tr with
  | [] => []
  | ev :: tr' =>
      match call ev with
      | AddCase case => case_uuid case :: submitted_uuids tr'
      | _ => submitted_uuids tr'
      end
  end.

(** The calls of [process] before its loop, when all of them return:
    [gc] and [nc] are the two stored credentials and [n] the number of
    emails selected. *)
Definition prologue (config : Config) (gc nc : Credential) (n : nat) : list Event :=
  [returned (LogTrace "Running process.");
   returned (GetCredential (GRAPH_API config));
   returned (AuthorizeByUsernamePassword (username gc) (password gc));
   returned (GetCredential (NOVA_API config));
   returned (NewNovaAccess (username nc) (password nc));
   returned (GetEmailsFromFolder "kontrolteamet@mkb.aarhus.dk"
               "Indbakke/Enlig forsørgerprojekt/Kvitteringer til journalisering");
   returned (LogInfo ("Number of emails to journalize: " ++ str_int (Z.of_nat n))%string)].

(** The calls of [process] when one of the calls before its loop raises
    [e]. *)
Inductive prologue_stop (config : Config) (e : exn) : list Event -> Prop :=
| stop_graph_credential :
    prologue_stop config e
      [returned (LogTrace "Running process.");
       failed (GetCredential (GRAPH_API config)) e]
| stop_authorize (gc : Credential) :
    prologue_stop config e
      [returned (LogTrace "Running process.");
       returned (GetCredential (GRAPH_API config));
       failed (AuthorizeByUsernamePassword (username gc) (password gc)) e]
| stop_nova_credential (gc : Credential) :
    prologue_stop config e
      [returned (LogTrace "Running process.");
       returned (GetCredential (GRAPH_API config));
       returned (AuthorizeByUsernamePassword (username gc) (password gc));
       failed (GetCredential (NOVA_API config)) e]
| stop_nova_access (gc nc : Credential) :
    prologue_stop config e
      [returned (LogTrace "Running process.");
       returned (GetCredential (GRAPH_API config));
       returned (AuthorizeByUsernamePassword (username gc) (password gc));
       returned (GetCredential (NOVA_API config));
       failed (NewNovaAccess (username nc) (password nc)) e]
| stop_get_emails (gc nc : Credential) :
    prologue_stop config e
      [returned (LogTrace "Running process.");
       returned (GetCredential (GRAPH_API config));
       returned (AuthorizeByUsernamePassword (username gc) (password gc));
       returned (GetCredential (NOVA_API config));
       returned (NewNovaAccess (username nc) (password nc));
       failed (GetEmailsFromFolder "kontrolteamet@mkb.aarhus.dk"
                 "Indbakke/Enlig forsørgerprojekt/Kvitteringer til journalisering") e].

(* ================================================================== *)
(** * Properties *)

Section RegexFacts.

Local Open Scope string_scope.
Import Regex.

Lemma strip_prefix_app (p s : string) : strip_prefix p (p ++ s) = Some s.
Proof.
  induction p as [|a p IH]; simpl; [reflexivity|].
  now rewrite Ascii.eqb_refl.
Qed.

Lemma strip_prefix_some (p s r : string) : strip_prefix p s = Some r -> s = p ++ r.
Proof.
  revert s; induction p as [|a p IH]; intros s H; simpl in *.
  - now inversion H.
  - destruct s as [|b s]; [discriminate|].
    destruct (Ascii.eqb_spec a b) as [->|]; [|discriminate].
    now rewrite (IH _ H).
Qed.

Lemma lazy_tail_sound (s g rest : string) :
  lazy_tail s = Some (g, rest) ->
  s = g ++ marker_close ++ rest
  /\ has_newline g = false
  /\ forall g2 r2, s = g2 ++ marker_close ++ r2 -> String.length g <= String.length g2.
Proof.
  revert g rest; induction s as [|c s IH]; intros g rest H.
  - simpl in H. discriminate.
  - cbn [lazy_tail] in H.
    destruct (strip_prefix marker_close (String c s)) as [r|] eqn:E.
    + inversion H; subst. apply strip_prefix_some in E.
      repeat split; [exact E | simpl; lia].
    + destruct (is_newline c) eqn:Ec; [discriminate|].
      destruct (lazy_tail s) as [[g' r']|] eqn:El; [|discriminate].
      inversion H; subst.
      destruct (IH _ _ eq_refl) as (Hs & Hn & Hmin).
      repeat split.
      * simpl. now rewrite Hs at 1.
      * simpl. now rewrite Ec, Hn.
      * intros g2 r2 H2. destruct g2 as [|c2 g2].
        -- simpl in H2. rewrite H2 in E.
           change (String "A" (String "d" (String "r" (String "e" (String "s" (String "s" (String "e" r2)))))))
             with (marker_close ++ r2) in E.
           rewrite strip_prefix_app in E. discriminate.
        -- simpl in H2. inversion H2; subst c2.
           simpl. apply le_n_S. apply (Hmin g2 r2). assumption.
Qed.

Lemma lazy_tail_complete (g rest : string) :
  has_newline g = false ->
  exists g' rest', lazy_tail (g ++ marker_close ++ rest) = Some (g', rest').
Proof.
  induction g as [|c g IH]; intros Hn.
  - exists EmptyString, rest. reflexivity.
  - simpl in Hn. apply orb_false_iff in Hn. destruct Hn as [Hc Hn].
    destruct (IH Hn) as (g' & rest' & E).
    change (String c g ++ marker_close ++ rest) with (String c (g ++ marker_close ++ rest)).
    cbn [lazy_tail].
    destruct (strip_prefix marker_close (String c (g ++ marker_close ++ rest))) as [r|].
    + eauto.
    + rewrite Hc, E. eauto.
Qed.

Lemma match_here_sound (s g rest : string) :
  match_here s = Some (g, rest) ->
  s = marker_open ++ g ++ marker_close ++ rest
  /\ g <> EmptyString
  /\ has_newline g = false
  /\ forall g2 r2, s = marker_open ++ g2 ++ marker_close ++ r2 -> g2 <> EmptyString ->
       String.length g <= String.length g2.
Proof.
  unfold match_here. intros H.
  destruct (strip_prefix marker_open s) as [[|c s']|] eqn:E; try discriminate.
  destruct (is_newline c) eqn:Ec; [discriminate|].
  destruct (lazy_tail s') as [[g' r']|] eqn:El; [|discriminate].
  inversion H; subst.
  apply strip_prefix_some in E.
  destruct (lazy_tail_sound _ _ _ El) as (Hs & Hn & Hmin).
  repeat split.
  - rewrite E, Hs. reflexivity.
  - discriminate.
  - simpl. now rewrite Ec, Hn.
  - intros g2 r2 H2 Hne. destruct g2 as [|c2 g2]; [contradiction|].
    rewrite E in H2. simpl in H2. inversion H2; subst.
    simpl. apply le_n_S. apply (Hmin g2 r2). assumption.
Qed.

Lemma match_here_complete (g rest : string) :
  g <> EmptyString -> has_newline g = false ->
  exists g' rest', match_here (marker_open ++ g ++ marker_close ++ rest) = Some (g', rest').
Proof.
  intros Hne Hn. destruct g as [|c g]; [contradiction|].
  simpl in Hn. apply orb_false_iff in Hn. destruct Hn as [Hc Hn].
  destruct (lazy_tail_complete g rest Hn) as (g' & rest' & E).
  unfold match_here. rewrite strip_prefix_app.
  change (String c g ++ marker_close ++ rest) with (String c (g ++ marker_close ++ rest)).
  cbn iota. rewrite Hc, E. eauto.
Qed.

Lemma occurrence_shift (a : ascii) (s pre g post : string) :
  occurrence s pre g post -> occurrence (String a s) (String a pre) g post.
Proof.
  intros (H & Hne & Hn). repeat split; try assumption.
  simpl. now rewrite H at 1.
Qed.

Lemma occurrence_unshift (a : ascii) (s pre g post : string) :
  occurrence (String a s) pre g post -> pre <> EmptyString ->
  exists pre0, pre = String a pre0 /\ occurrence s pre0 g post.
Proof.
  intros (H & Hne & Hn) Hpre. destruct pre as [|b pre0]; [contradiction|].
  simpl in H. inversion H; subst b.
  exists pre0. repeat split; assumption.
Qed.

Lemma match_here_none_no_occurrence (s g post : string) :
  match_here s = None -> ~ occurrence s EmptyString g post.
Proof.
  intros E (H & Hne & Hn).
  destruct (match_here_complete g post Hne Hn) as (g' & r' & E').
  change (s = marker_open ++ g ++ marker_close ++ post) in H.
  rewrite <- H in E'. congruence.
Qed.

(** The scan finds nothing exactly when the pattern matches nowhere. *)
Lemma findall_nil_iff (s : string) :
  findall s = [] <-> (forall pre g post, ~ occurrence s pre g post).
Proof.
  unfold findall. induction s as [|a s IH].
  - split; [|reflexivity]. intros _ pre g post (H & _).
    destruct pre; simpl in H; discriminate.
  - cbn [findall_from]. destruct (match_here (String a s)) as [[g r]|] eqn:E.
    + split; [discriminate|]. intros Hno. exfalso.
      destruct (match_here_sound _ _ _ E) as (Hs & Hne & Hn & _).
      apply (Hno EmptyString g r). repeat split; assumption.
    + rewrite IH. split.
      * intros Hno pre g post Hocc.
        destruct pre as [|b pre0].
        -- exact (match_here_none_no_occurrence _ _ _ E Hocc).
        -- destruct (occurrence_unshift _ _ _ _ _ Hocc) as (p0 & _ & Hocc0); [discriminate|].
           exact (Hno _ _ _ Hocc0).
      * intros Hno pre g post Hocc.
        exact (Hno _ _ _ (occurrence_shift a _ _ _ _ Hocc)).
Qed.

(** When the pattern matches somewhere, the head of the scan's result is
    the group of the leftmost match, the shortest one at that place. *)
Lemma findall_head (s pre g post : string) :
  occurrence s pre g post ->
  exists pre' g' post' more,
    findall s = g' :: more
    /\ occurrence s pre' g' post'
    /\ forall pre2 g2 post2, occurrence s pre2 g2 post2 ->
         String.length pre' < String.length pre2
         \/ (pre2 = pre' /\ String.length g' <= String.length g2).
Proof.
  unfold findall. revert pre; induction s as [|a s IH]; intros pre Hocc.
  - destruct Hocc as (H & _). destruct pre; simpl in H; discriminate.
  - cbn [findall_from]. destruct (match_here (String a s)) as [[g' r']|] eqn:E.
    + destruct (match_here_sound _ _ _ E) as (Hs & Hne & Hn & Hmin).
      exists EmptyString, g', r'. eexists. split; [reflexivity|].
      split; [repeat split; assumption|].
      intros pre2 g2 post2 (H2 & Hne2 & Hn2).
      destruct pre2 as [|b p2]; [right|left; simpl; lia].
      split; [reflexivity|]. apply (Hmin g2 post2); assumption.
    + destruct pre as [|b pre0].
      * exfalso. exact (match_here_none_no_occurrence _ _ _ E Hocc).
      * destruct (occurrence_unshift _ _ _ _ _ Hocc) as (p0 & _ & Hocc0); [discriminate|].
        destruct (IH _ Hocc0) as (pre' & g' & post' & more & Hf & Ho & Hmin).
        exists (String a pre'), g', post', more.
        split; [exact Hf|]. split; [apply occurrence_shift; exact Ho|].
        intros pre2 g2 post2 Hocc2.
        destruct pre2 as [|b2 p2].
        -- exfalso. exact (match_here_none_no_occurrence _ _ _ E Hocc2).
        -- destruct (occurrence_unshift _ _ _ _ _ Hocc2) as (q & Hq & Hocc2'); [discriminate|].
           inversion Hq; subst b2 q.
           destruct (Hmin _ _ _ Hocc2') as [Hlt | [-> Hle]].
           ++ left. simpl. lia.
           ++ right. split; [reflexivity | exact Hle].
Qed.

Lemma findall_groups (s : string) (skip : nat) (g : string) :
  In g (findall_from skip s) -> g <> EmptyString /\ has_newline g = false.
Proof.
  revert skip; induction s as [|a s IH]; intros skip Hin.
  - destruct Hin.
  - cbn [findall_from] in Hin. destruct skip as [|k]; [|exact (IH _ Hin)].
    destruct (match_here (String a s)) as [[g' r']|] eqn:E; [|exact (IH _ Hin)].
    destruct Hin as [<- | Hin]; [|exact (IH _ Hin)].
    destruct (match_here_sound _ _ _ E) as (_ & Hne & Hn & _). now split.
Qed.

(** C6. When the pattern [CPR-nummer(.+?)Adresse] matches nowhere in the
    body text, [get_cpr_from_email] raises [IndexError]: it returns no
    default value. *)
Theorem get_cpr_no_match_raises (email : Email) :
  (forall pre g post, ~ occurrence (text email) pre g post) ->
  get_cpr_from_email email = Raise (IndexError "list index out of range").
Proof.
  intros Hno. unfold get_cpr_from_email.
  apply findall_nil_iff in Hno. now rewrite Hno.
Qed.

Lemma get_cpr_no_match_raises_witness :
  let email := mkEmail "kontrolteamet@mkb.aarhus.dk" "AAMkAD1" "2024-03-05T09:12:44Z"
                 "noreply@aarhus.dk" "Kvittering" "Tak for din henvendelse. Adresse: Vej 1" in
  (forall pre g post, ~ occurrence (text email) pre g post)
  /\ get_cpr_from_email email = Raise (IndexError "list index out of range").
Proof.
  intros email.
  assert (Hno : forall pre g post, ~ occurrence (text email) pre g post)
    by (apply findall_nil_iff; reflexivity).
  split; [exact Hno | exact (get_cpr_no_match_raises email Hno)].
Defined.

(** C5, as amended.  When the body text holds ["CPR-nummer" ++ g ++
    "Adresse"] for a [g] of one or more characters without a line feed,
    [get_cpr_from_email] returns the group of the first match: the text
    [g'] standing between the two markers of the leftmost such place, the
    shortest one there, character for character. *)
Theorem get_cpr_returns_first_capture (email : Email) (pre g post : string) :
  occurrence (text email) pre g post ->
  exists pre' g' post',
    get_cpr_from_email email = Ok g'
    /\ text email = pre' ++ "CPR-nummer" ++ g' ++ "Adresse" ++ post'
    /\ g' <> EmptyString
    /\ has_newline g' = false
    /\ forall pre2 g2 post2, occurrence (text email) pre2 g2 post2 ->
         String.length pre' < String.length pre2
         \/ (pre2 = pre' /\ String.length g' <= String.length g2).
Proof.
  intros Hocc. unfold get_cpr_from_email.
  destruct (findall_head _ _ _ _ Hocc) as (pre' & g' & post' & more & Hf & (Ht & Hne & Hn) & Hmin).
  exists pre', g', post'. rewrite Hf. repeat split; assumption.
Qed.

Lemma get_cpr_returns_first_capture_witness :
  let email := mkEmail "kontrolteamet@mkb.aarhus.dk" "AAMkAD2" "2024-03-05T09:12:44Z"
                 "noreply@aarhus.dk" "Erklæring - økonomisk fripladstilskud"
                 "Navn Anna CPR-nummer1234567890Adresse Vej 1 CPR-nummer22Adresse" in
  occurrence (text email) "Navn Anna " "1234567890" " Vej 1 CPR-nummer22Adresse"
  /\ exists pre' g' post',
       get_cpr_from_email email = Ok g'
       /\ text email = pre' ++ "CPR-nummer" ++ g' ++ "Adresse" ++ post'
       /\ g' <> EmptyString
       /\ has_newline g' = false
       /\ forall pre2 g2 post2, occurrence (text email) pre2 g2 post2 ->
            String.length pre' < String.length pre2
            \/ (pre2 = pre' /\ String.length g' <= String.length g2).
Proof.
  intros email.
  assert (Hocc : occurrence (text email) "Navn Anna " "1234567890" " Vej 1 CPR-nummer22Adresse")
    by (repeat split; discriminate).
  split; [exact Hocc | exact (get_cpr_returns_first_capture email _ _ _ Hocc)].
Defined.

(** C5, as stated, fails: a body text can hold the two markers with
    nothing, or with a line break, between them, and then nothing is
    returned. *)
Lemma get_cpr_between_markers_counterexample :
  let email := mkEmail "kontrolteamet@mkb.aarhus.dk" "AAMkAD3" "2024-03-05T09:12:44Z"
                 "noreply@aarhus.dk" "Erklæring - økonomisk fripladstilskud"
                 "CPR-nummerAdresse" in
  text email = "" ++ "CPR-nummer" ++ "" ++ "Adresse" ++ ""
  /\ forall g, get_cpr_from_email email <> Ok g.
Proof.
  split; [reflexivity | discriminate].
Qed.

(** The example of the specification. *)
Example get_cpr_example :
  get_cpr_from_email
    (mkEmail "kontrolteamet@mkb.aarhus.dk" "AAMkAD4" "2024-03-05T09:12:44Z"
       "noreply@aarhus.dk" "Erklæring - økonomisk fripladstilskud"
       "CPR-nummer1234567890Adresse...")
  = Ok "1234567890".
Proof. reflexivity. Qed.

(** C10, as amended.  [get_cpr_from_email] never returns the empty
    string, nor a text with a line feed.  It raises [IndexError] exactly
    when every pair of markers in the body text has nothing, or a text
    with a line break, between them; so it does on ["CPR-nummerAdresse"]
    and on markers separated by a line break only.  Markers that touch do
    not make it fail when a later closing marker ends a capture. *)
Theorem get_cpr_never_empty :
  (forall email g, get_cpr_from_email email = Ok g ->
      g <> EmptyString /\ has_newline g = false)
  /\ (forall email,
        (forall pre x post, text email = pre ++ "CPR-nummer" ++ x ++ "Adresse" ++ post ->
           x = EmptyString \/ has_newline x = true) ->
        get_cpr_from_email email = Raise (IndexError "list index out of range"))
  /\ (forall u i r f j,
        get_cpr_from_email (mkEmail u i r f j "CPR-nummerAdresse")
        = Raise (IndexError "list index out of range"))
  /\ (forall u i r f j,
        get_cpr_from_email (mkEmail u i r f j
          (String "C" (String "P" (String "R" (String "-" (String "n" (String "u"
          (String "m" (String "m" (String "e" (String "r" (String "010"
          "0101011234Adresse"))))))))))))
        = Raise (IndexError "list index out of range"))
  /\ (forall email e,
        get_cpr_from_email email = Raise e ->
        e = IndexError "list index out of range"
        /\ forall pre x post, text email = pre ++ "CPR-nummer" ++ x ++ "Adresse" ++ post ->
             x = EmptyString \/ has_newline x = true).
Proof.
  split; [|split; [|split; [|split]]].
  - intros email g H. unfold get_cpr_from_email in H.
    destruct (findall (text email)) as [|g0 more] eqn:E; [discriminate|].
    inversion H; subst g0.
    apply (findall_groups (text email) 0 g).
    unfold findall in E. rewrite E. now left.
  - intros email Hall. unfold get_cpr_from_email.
    assert (Hno : findall (text email) = []).
    { apply findall_nil_iff. intros pre g post (Ht & Hne & Hn).
      destruct (Hall _ _ _ Ht) as [He | Hnl]; congruence. }
    now rewrite Hno.
  - reflexivity.
  - reflexivity.
  - intros email e H. unfold get_cpr_from_email in H.
    destruct (findall (text email)) as [|g0 more] eqn:E; [|discriminate].
    inversion H; subst e. split; [reflexivity|].
    intros pre x post Ht.
    destruct x as [|c x]; [now left|]. right.
    destruct (has_newline (String c x)) eqn:En; [reflexivity|]. exfalso.
    apply (proj1 (findall_nil_iff (text email)) E pre (String c x) post).
    repeat split; [exact Ht | discriminate | exact En].
Qed.

(** C10, as stated, fails: in these body texts [CPR-nummer] is
    immediately followed by [Adresse], with nothing between the two, and
    yet an identifier is returned, since a later [Adresse] on the same
    line ends the capture. *)
Lemma get_cpr_touching_markers_counterexample :
  let short :=
    mkEmail "kontrolteamet@mkb.aarhus.dk" "AAMkAD-9" "2024-03-05T09:12:44+00:00"
      "noreply@aarhus.dk" "Erklæring - økonomisk fripladstilskud"
      "CPR-nummerAdresseAdresse" in
  let long :=
    mkEmail "kontrolteamet@mkb.aarhus.dk" "AAMkAD-10" "2024-03-05T09:12:44+00:00"
      "noreply@aarhus.dk" "Erklæring - økonomisk fripladstilskud"
      "Navn Anna CPR-nummerAdresse Vej 1. Tidligere Adresse Gade 2" in
  text short = "" ++ "CPR-nummer" ++ "Adresse" ++ "Adresse"
  /\ get_cpr_from_email short = Ok "Adresse"
  /\ text long = "Navn Anna " ++ "CPR-nummer" ++ "Adresse" ++ " Vej 1. Tidligere Adresse Gade 2"
  /\ get_cpr_from_email long = Ok "Adresse Vej 1. Tidligere "
  /\ get_cpr_from_email short <> Raise (IndexError "list index out of range")
  /\ get_cpr_from_email long <> Raise (IndexError "list index out of range").
Proof.
  repeat split; discriminate.
Qed.

(* ------------------------------------------------------------------ *)
(** ** Further properties of the extraction *)

Lemma append_assoc (a b c : string) : (a ++ b) ++ c = a ++ (b ++ c).
Proof.
  induction a as [|x a IH]; simpl; [reflexivity | now rewrite IH].
Qed.

Lemma append_length (a b : string) :
  String.length (a ++ b) = String.length a + String.length b.
Proof.
  induction a as [|x a IH]; simpl; [reflexivity | now rewrite IH].
Qed.

Lemma append_inv_head (a b c : string) : a ++ b = a ++ c -> b = c.
Proof.
  induction a as [|x a IH]; simpl; intros H; [exact H|].
  inversion H. auto.
Qed.

Lemma append_nil_r (a : string) : a ++ "" = a.
Proof.
  induction a as [|x a IH]; simpl; [reflexivity | now rewrite IH].
Qed.

(** Two ways of cutting one text: the shorter head is a head of the
    longer one. *)
Lemma append_split (a b c d : string) :
  a ++ b = c ++ d -> String.length a <= String.length c ->
  exists m, c = a ++ m /\ b = m ++ d.
Proof.
  revert c; induction a as [|x a IH]; intros c H Hlen.
  - exists c. simpl in *. now split.
  - destruct c as [|y c]; [simpl in Hlen; lia|].
    simpl in H. inversion H; subst y.
    destruct (IH c) as (m & -> & ->); [assumption | simpl in Hlen; lia |].
    exists m. now split.
Qed.

Lemma occurs_false (m s : string) :
  occurs m s = false -> forall p q, s <> p ++ m ++ q.
Proof.
  induction s as [|c s IH]; intros H p q Heq; cbn [occurs] in H.
  - destruct (strip_prefix m "") eqn:E; [discriminate|].
    destruct p; [|discriminate]. simpl in Heq. rewrite Heq in E.
    rewrite strip_prefix_app in E. discriminate.
  - destruct (strip_prefix m (String c s)) eqn:E; [discriminate|].
    destruct p as [|x p].
    + simpl in Heq. rewrite Heq in E. rewrite strip_prefix_app in E. discriminate.
    + simpl in Heq. inversion Heq. eapply IH; eauto.
Qed.

(** The head of the scan's result stands between the markers, and no
    shorter text does at that place. *)
Lemma findall_first_sound (s g : string) (more : list string) :
  findall s = g :: more ->
  exists pre post,
    s = pre ++ marker_open ++ g ++ marker_close ++ post
    /\ g <> EmptyString
    /\ forall g2 r2,
         marker_open ++ g ++ marker_close ++ post = marker_open ++ g2 ++ marker_close ++ r2 ->
         g2 <> EmptyString -> String.length g <= String.length g2.
Proof.
  unfold findall. induction s as [|c s IH]; intros H; [discriminate|].
  cbn [findall_from] in H.
  destruct (match_here (String c s)) as [[g0 r0]|] eqn:E.
  - inversion H; subst g0.
    destruct (match_here_sound _ _ _ E) as (Hs & Hne & _ & Hmin).
    exists EmptyString, r0. split; [exact Hs|]. split; [exact Hne|].
    intros g2 r2 Hsame Hne2. apply (Hmin g2 r2); [|exact Hne2].
    now rewrite Hs.
  - destruct (IH H) as (pre & post & Hs & Hne & Hmin).
    exists (String c pre), post. split; [simpl; now rewrite Hs at 1|]. now split.
Qed.

(** The identifier returned never holds the closing marker past its
    first character: the lazy group stops at the first place where
    [Adresse] follows. *)
Theorem get_cpr_stops_at_first_close (email : Email) (g : string) :
  get_cpr_from_email email = Ok g ->
  forall a b, g = a ++ "Adresse" ++ b -> a = EmptyString.
Proof.
  unfold get_cpr_from_email. intros H a b Hg.
  destruct (findall (text email)) as [|g0 more] eqn:E; [discriminate|].
  inversion H; subst g0.
  destruct (findall_first_sound _ _ _ E) as (pre & post & _ & _ & Hmin).
  destruct a as [|x a]; [reflexivity|]. exfalso.
  assert (Hle : String.length g <= String.length (String x a)).
  { apply (Hmin (String x a) (b ++ marker_close ++ post)); [|discriminate].
    rewrite Hg. f_equal.
    change marker_close with "Adresse".
    now rewrite !append_assoc. }
  rewrite Hg, !append_length in Hle. simpl in Hle. lia.
Qed.

Lemma strip_prefix_app_some (p s r x : string) :
  strip_prefix p s = Some r -> strip_prefix p (s ++ x) = Some (r ++ x).
Proof.
  intros H. apply strip_prefix_some in H. subst s.
  rewrite append_assoc. apply strip_prefix_app.
Qed.

Lemma strip_prefix_app_none (p s x : string) :
  strip_prefix p s = None -> String.length p <= String.length s ->
  strip_prefix p (s ++ x) = None.
Proof.
  revert s; induction p as [|a p IH]; intros s H Hlen; [discriminate|].
  destruct s as [|b s]; [simpl in Hlen; lia|].
  simpl in *. destruct (Ascii.eqb a b); [|reflexivity].
  apply IH; [assumption | lia].
Qed.

Lemma lazy_tail_app_some (s g rest x : string) :
  lazy_tail s = Some (g, rest) -> lazy_tail (s ++ x) = Some (g, rest ++ x).
Proof.
  revert g rest; induction s as [|c s IH]; intros g rest H; [discriminate|].
  cbn [lazy_tail] in H.
  change (String c s ++ x) with (String c (s ++ x)). cbn [lazy_tail].
  destruct (strip_prefix marker_close (String c s)) as [r|] eqn:E.
  - inversion H; subst.
    change (String c (s ++ x)) with (String c s ++ x).
    now rewrite (strip_prefix_app_some _ _ _ x E).
  - destruct (is_newline c); [discriminate|].
    destruct (lazy_tail s) as [[g' r']|] eqn:El; [|discriminate].
    inversion H; subst.
    destruct (lazy_tail_sound _ _ _ El) as (Hs & _).
    change (String c (s ++ x)) with (String c s ++ x).
    rewrite strip_prefix_app_none; [now rewrite (IH _ _ eq_refl) | exact E |].
    rewrite Hs. simpl. rewrite !append_length. simpl. lia.
Qed.

Lemma match_here_app_some (s g rest x : string) :
  match_here s = Some (g, rest) -> match_here (s ++ x) = Some (g, rest ++ x).
Proof.
  unfold match_here. intros H.
  destruct (strip_prefix marker_open s) as [[|c s']|] eqn:E; try discriminate.
  rewrite (strip_prefix_app_some _ _ _ x E).
  change (String c s' ++ x) with (String c (s' ++ x)). cbn iota.
  destruct (is_newline c); [discriminate|].
  destruct (lazy_tail s') as [[g' r']|] eqn:El; [|discriminate].
  inversion H; subst. now rewrite (lazy_tail_app_some _ _ _ x El).
Qed.

Lemma lazy_tail_app_none (u x : string) :
  lazy_tail u = None ->
  (exists a b, u = a ++ marker_close ++ b) ->
  lazy_tail (u ++ x) = None.
Proof.
  induction u as [|c u IH]; intros H (a & b & Hu).
  - destruct a; discriminate.
  - cbn [lazy_tail] in H.
    destruct (strip_prefix marker_close (String c u)) as [r|] eqn:E; [discriminate|].
    destruct a as [|y a].
    { simpl in Hu. rewrite Hu in E.
      change (String "A" (String "d" (String "r" (String "e" (String "s" (String "s" (String "e" b)))))))
        with (marker_close ++ b) in E.
      rewrite strip_prefix_app in E. discriminate. }
    simpl in Hu. injection Hu as _ Hb.
    change (String c u ++ x) with (String c (u ++ x)). cbn [lazy_tail].
    change (String c (u ++ x)) with (String c u ++ x).
    rewrite strip_prefix_app_none; [| exact E |].
    2:{ simpl. rewrite Hb, !append_length. simpl. lia. }
    destruct (is_newline c); [reflexivity|].
    destruct (lazy_tail u) as [[g' r']|] eqn:El; [discriminate|].
    rewrite IH; [reflexivity | reflexivity | exists a, b; exact Hb].
Qed.

Lemma match_here_app_none (s x : string) :
  match_here s = None ->
  (exists p b, s = p ++ marker_close ++ b /\ 11 <= String.length p) ->
  match_here (s ++ x) = None.
Proof.
  unfold match_here. intros H (p & b & Hs & Hlen).
  assert (Hlong : 18 <= String.length s).
  { rewrite Hs, !append_length. simpl. lia. }
  destruct (strip_prefix marker_open s) as [[|c u]|] eqn:E.
  - apply strip_prefix_some in E. rewrite E in Hlong. simpl in Hlong. lia.
  - rewrite (strip_prefix_app_some _ _ _ x E).
    change (String c u ++ x) with (String c (u ++ x)). cbn iota.
    destruct (is_newline c); [reflexivity|].
    destruct (lazy_tail u) as [[g' r']|] eqn:El; [discriminate|].
    rewrite lazy_tail_app_none; [reflexivity | exact El |].
    apply strip_prefix_some in E.
    assert (Hcut : (marker_open ++ String c "") ++ u = p ++ marker_close ++ b).
    { rewrite <- Hs, E. now rewrite append_assoc. }
    apply append_split in Hcut; [|simpl; lia].
    destruct Hcut as (m & _ & Hu). eauto.
  - rewrite strip_prefix_app_none; [reflexivity | exact E | simpl; lia].
Qed.

Lemma findall_app_head (s x g : string) (more : list string) :
  findall s = g :: more -> exists more', findall (s ++ x) = g :: more'.
Proof.
  unfold findall. induction s as [|c s IH]; intros H; [discriminate|].
  cbn [findall_from] in H.
  change (String c s ++ x) with (String c (s ++ x)). cbn [findall_from].
  change (String c (s ++ x)) with (String c s ++ x).
  destruct (match_here (String c s)) as [[g0 r0]|] eqn:E.
  - inversion H; subst. rewrite (match_here_app_some _ _ _ x E). eauto.
  - rewrite match_here_app_none; [exact (IH H) | exact E |].
    destruct (findall_first_sound s g more H) as (pre & post & Hs & _).
    exists (String c pre ++ marker_open ++ g), post. split.
    + rewrite Hs. simpl. f_equal. now rewrite !append_assoc.
    + simpl. rewrite !append_length. simpl. lia.
Qed.

(** What follows the first match does not count: text added at the end
    of a body from which an identifier is read leaves the identifier
    read unchanged. *)
Theorem get_cpr_ignores_appended_text (email : Email) (g extra : string) :
  get_cpr_from_email email = Ok g ->
  get_cpr_from_email (with_text_appended email extra) = Ok g.
Proof.
  unfold get_cpr_from_email, with_text_appended. cbn [text]. intros H.
  destruct (findall (text email)) as [|g0 more] eqn:E; [discriminate|].
  inversion H; subst g0.
  destruct (findall_app_head _ extra _ _ E) as (more' & ->). reflexivity.
Qed.

(** Round trip.  A body made of [pre], the opening marker, an identifier
    [g], the closing marker and [post] gives back [g], unchanged, when
    [g] is not empty, has no line feed and no beginning of the closing
    marker in it, and the opening marker does not begin inside [pre]. *)
Theorem get_cpr_round_trip (email : Email) (pre g post : string) :
  text email = pre ++ "CPR-nummer" ++ g ++ "Adresse" ++ post ->
  g <> EmptyString ->
  has_newline g = false ->
  occurs "CPR-nummer" (pre ++ "CPR-numme") = false ->
  occurs "Adresse" (g ++ "Adress") = false ->
  get_cpr_from_email email = Ok g.
Proof.
  intros Ht Hne Hn Hpre Hg.
  assert (Hocc : occurrence (text email) pre g post) by (repeat split; assumption).
  destruct (findall_head _ _ _ _ Hocc)
    as (pre' & g' & post' & more & Hf & (Ht' & Hne' & Hn') & Hmin).
  unfold get_cpr_from_email. rewrite Hf. cbn [index0]. f_equal.
  destruct (Hmin _ _ _ Hocc) as [Hlt | (-> & Hle)].
  - exfalso.
    assert (Hcut : (pre' ++ "CPR-nummer") ++ (g' ++ "Adresse" ++ post')
                   = (pre ++ "CPR-numme") ++ ("r" ++ g ++ "Adresse" ++ post)).
    { rewrite !append_assoc. rewrite <- Ht'. rewrite Ht. reflexivity. }
    apply append_split in Hcut; [|rewrite !append_length; simpl; lia].
    destruct Hcut as (m & Hm & _).
    apply (occurs_false _ _ Hpre pre' m). now rewrite Hm, append_assoc.
  - rewrite Ht in Ht'. apply append_inv_head in Ht'.
    change ("CPR-nummer" ++ g ++ "Adresse" ++ post)
      with (marker_open ++ (g ++ "Adresse" ++ post)) in Ht'.
    change ("CPR-nummer" ++ g' ++ "Adresse" ++ post')
      with (marker_open ++ (g' ++ "Adresse" ++ post')) in Ht'.
    apply append_inv_head in Ht'.
    destruct (Nat.eq_dec (String.length g') (String.length g)) as [Heq | Hneq].
    + symmetry in Ht'. apply append_split in Ht'; [|lia].
      destruct Ht' as (m & Hm & _).
      assert (m = EmptyString).
      { apply (f_equal String.length) in Hm. rewrite append_length in Hm.
        destruct m; [reflexivity | simpl in Hm; lia]. }
      subst m. now rewrite append_nil_r in Hm.
    + exfalso.
      assert (Hcut : (g' ++ "Adresse") ++ post' = (g ++ "Adress") ++ ("e" ++ post)).
      { rewrite !append_assoc. rewrite <- Ht'. reflexivity. }
      apply append_split in Hcut; [|rewrite !append_length; simpl; lia].
      destruct Hcut as (m & Hm & _).
      apply (occurs_false _ _ Hg g' m). now rewrite Hm, append_assoc.
Qed.

End RegexFacts.

Section WorkflowFacts.

Variable config : Config.
Variable env : Env.

Ltac unfold_steps H :=
  cbv beta iota zeta delta
    [handle_email guarded_steps create_case attach_email_to_case get_emails
     bind try_except lift ret raise external log fromisoformat datetime_now uuid4
     get_address_by_cpr add_case get_email_as_mime upload_document
     attach_document_to_case move_email get_emails_from_folder
     create_queue_element set_queue_element_status outcome] in H;
  cbn [queue trace uuid_draws] in H.

Ltac split_outcomes H :=
  repeat match type of H with
         | context [match ?x with _ => _ end] =>
             lazymatch x with
             | context [match _ with _ => _ end] => fail
             | _ => destruct x eqn:?; cbv beta iota in H
             end
         end.

Lemma getitem_raises (d : list (string * string)) (key : string) (e : exn) :
  getitem d key = Raise e -> e = KeyError key.
Proof.
  induction d as [|[k v] d IH]; simpl; intros H.
  - now inversion H.
  - destruct (String.eqb k key); [discriminate | auto].
Qed.

Ltac pick_run :=
  first
    [ apply run_lookup_raises
    | apply run_name_missing
    | match goal with
      | |- context [AddCase ?c] =>
          first [ eapply (run_add_case_raises _ _ c)
                | eapply (run_mime_raises _ _ c)
                | eapply (run_upload_raises _ _ c)
                | eapply (run_attach_raises _ _ c)
                | eapply (run_move_raises _ _ c)
                | eapply (run_completes _ _ c) ]
      end ].

Ltac close_run H :=
  inversion H; subst; clear H; cbn [queue trace uuid_draws];
  repeat rewrite <- app_assoc; cbn [app].

(** Every run of the [try] body is one of the runs of [guarded_run]; the
    queue table is left alone. *)
Lemma guarded_steps_run (email : Email) (cpr : string) (d : datetime)
    (ga : GraphAccess) (na : NovaAccess) (w w' : World) (r : Result unit) :
  guarded_steps env email cpr d ga na w = (r, w') ->
  queue w' = queue w
  /\ exists tr, trace w' = trace w ++ tr /\ guarded_run email cpr r tr.
Proof.
  intros H. unfold_steps H. split_outcomes H; close_run H;
    (split; [reflexivity|]); eexists; (split; [reflexivity|]);
    repeat match goal with u : unit |- _ => destruct u end;
    repeat match goal with
           | Hg : getitem _ _ = Raise _ |- _ => apply getitem_raises in Hg; subst
           end.
  all: pick_run.
Qed.

Lemma update_other (q : list QueueElement) (st : QueueStatus) (msg : option string) :
  map (update_status (fresh_id q) st msg) q = q.
Proof.
  assert (H : Forall (fun k => k <= list_max (map element_id q)) (map element_id q))
    by (apply list_max_le; lia).
  unfold fresh_id. revert H. generalize (list_max (map element_id q)) as m.
  induction q as [|el q IH]; intros m H; simpl; [reflexivity|].
  inversion H; subst. rewrite (IH m) by assumption.
  unfold update_status at 1.
  destruct (Nat.eqb_spec (element_id el) (S m)); [lia | reflexivity].
Qed.

Lemma update_fresh (q : list QueueElement) (qn ref : string) (st : QueueStatus)
    (msg : option string) :
  map (update_status (fresh_id q) st msg)
      (q ++ [mkQueueElement (fresh_id q) qn ref NEW None])
  = q ++ [mkQueueElement (fresh_id q) qn ref st msg].
Proof.
  rewrite map_app, update_other. simpl. unfold update_status. simpl.
  rewrite Nat.eqb_refl. now destruct msg.
Qed.

(** All runs of [handle_email]: it stops before anything is done when no
    identifier or no date can be read; otherwise a queue element is
    created, the [try] body runs, and the element takes its final status. *)
Lemma handle_email_run (email : Email) (ga : GraphAccess) (na : NovaAccess)
    (w w' : World) (r : Result unit) :
  handle_email config env email ga na w = (r, w') ->
  (exists e, get_cpr_from_email email = Raise e /\ r = Raise e /\ w' = w)
  \/ (exists cpr e, get_cpr_from_email email = Ok cpr
        /\ env_fromisoformat env (received_time email) = Raise e
        /\ r = Raise e /\ w' = w)
  \/ (exists cpr d tr,
        get_cpr_from_email email = Ok cpr
        /\ env_fromisoformat env (received_time email) = Ok d
        /\ guarded_run email cpr r tr
        /\ trace w' =
             trace w
             ++ [returned (CreateQueueElement (QUEUE_NAME config)
                             (cpr ++ " - " ++ received_time email)%string)]
             ++ tr
             ++ [returned (SetQueueElementStatus (fresh_id (queue w))
                             (final_status r) (final_message r))]
        /\ queue w' =
             queue w
             ++ [mkQueueElement (fresh_id (queue w)) (QUEUE_NAME config)
                   (cpr ++ " - " ++ received_time email)%string
                   (final_status r) (final_message r)]).
Proof.
  intros H.
  cbv beta iota zeta delta
    [handle_email bind try_except lift ret raise fromisoformat
     create_queue_element set_queue_element_status] in H.
  destruct (get_cpr_from_email email) as [cpr|e] eqn:Ecpr.
  2:{ left. inversion H; subst. eauto. }
  destruct (env_fromisoformat env (received_time email)) as [d|e] eqn:Ed.
  2:{ right; left. inversion H; subst. exists cpr, e. auto. }
  right; right. exists cpr, d.
  cbn [element_id] in H.
  match type of H with
  | context [guarded_steps ?v ?a ?b ?c ?g ?n ?w1] =>
      destruct (guarded_steps v a b c g n w1) as [r1 w2] eqn:G
  end.
  apply guarded_steps_run in G. destruct G as (Hq & tr & Ht & Hrun).
  cbn [queue trace] in Hq, Ht.
  exists tr.
  destruct r1 as [[]|exc]; inversion H; subst; clear H;
    cbn [queue trace final_status final_message];
    rewrite Hq, Ht, update_fresh; repeat rewrite <- app_assoc;
    repeat split; auto.
Qed.

Ltac use_run H :=
  apply handle_email_run in H;
  destruct H as [(e0 & Hcpr & Hr & Hw)
                | [(cpr0 & e0 & Hcpr & Hdate & Hr & Hw)
                  | (cpr0 & d0 & tr0 & Hcpr & Hdate & Hrun & Htrace & Hqueue)]].


(** C2, as amended.  When the [try] body of [handle_email] raises [exc]
    (the identifier and the date were read, and an exception left the
    case creation, the attachment or the move), the queue element of the
    email ends in status [FAILED] with [str(exc)] as message, its status
    was set once, and no call that moves the email has returned.  The
    message is empty exactly when the text of [exc] is. *)
Theorem handle_email_failure_recorded (email : Email) (ga : GraphAccess)
    (na : NovaAccess) (w w' : World) (cpr : string) (d : datetime) (exc : exn) :
  get_cpr_from_email email = Ok cpr ->
  env_fromisoformat env (received_time email) = Ok d ->
  handle_email config env email ga na w = (Raise exc, w') ->
  exists tr,
    trace w' = trace w ++ tr
    /\ queue w' =
         queue w
         ++ [mkQueueElement (fresh_id (queue w)) (QUEUE_NAME config)
               (cpr ++ " - " ++ received_time email)%string
               FAILED (Some (str_exc exc))]
    /\ count is_set_status tr = 1
    /\ count email_moved tr = 0.
Proof.
  intros Hc Hd H. use_run H; try congruence.
  assert (cpr0 = cpr) by congruence. subst cpr0.
  eexists. split; [exact Htrace|]. split; [exact Hqueue|].
  inversion Hrun; subst; split; reflexivity.
Qed.

(** C8, as amended.  When the identifier and the received time of an
    email can be read, [handle_email] first creates one queue element,
    with the reference [cpr - received_time], before any call on the
    backend or the gateway, and last sets its status, once, to [DONE]
    when the steps returned and to [FAILED] when they raised. *)
Theorem handle_email_queue_element (email : Email) (ga : GraphAccess)
    (na : NovaAccess) (w w' : World) (r : Result unit) (cpr : string) (d : datetime) :
  get_cpr_from_email email = Ok cpr ->
  env_fromisoformat env (received_time email) = Ok d ->
  handle_email config env email ga na w = (r, w') ->
  exists tr st msg,
    trace w' =
      trace w
      ++ [returned (CreateQueueElement (QUEUE_NAME config)
                      (cpr ++ " - " ++ received_time email)%string)]
      ++ tr
      ++ [returned (SetQueueElementStatus (fresh_id (queue w)) st msg)]
    /\ count is_create_queue_element tr = 0
    /\ count is_set_status tr = 0
    /\ queue w' =
         queue w
         ++ [mkQueueElement (fresh_id (queue w)) (QUEUE_NAME config)
               (cpr ++ " - " ++ received_time email)%string st msg]
    /\ (st = DONE \/ st = FAILED)
    /\ (r = Ok tt -> st = DONE /\ msg = None)
    /\ (forall exc, r = Raise exc -> st = FAILED /\ msg = Some (str_exc exc)).
Proof.
  intros Hc Hd H. use_run H; try congruence.
  assert (cpr0 = cpr) by congruence. subst cpr0.
  exists tr0, (final_status r), (final_message r).
  split; [exact Htrace|].
  split; [inversion Hrun; reflexivity|].
  split; [inversion Hrun; reflexivity|].
  split; [exact Hqueue|].
  split; [destruct r; simpl; auto|].
  split; [intros ->; now split | intros exc ->; now split].
Qed.

Ltac earlier_at j := exists j; eexists; split; [lia | split; reflexivity].

Ltac find_earlier :=
  first [ earlier_at 0 | earlier_at 1 | earlier_at 2 | earlier_at 3
        | earlier_at 4 | earlier_at 5 | earlier_at 6 ].

Ltac solve_preceded :=
  intros i ev Hnth Hq;
  repeat match type of Hnth with
         | nth_error (_ :: _) _ = _ =>
             destruct i as [|i];
             [ cbn in Hnth; inversion Hnth; subst ev; clear Hnth;
               first [ discriminate Hq | find_earlier ]
             | cbn [nth_error] in Hnth ]
         end;
  destruct i; cbn in Hnth; discriminate Hnth.

Ltac refute_all_returned Hall :=
  repeat (first [ apply Forall_inv in Hall; discriminate Hall
                | apply Forall_inv_tail in Hall ]).

Ltac close_step_order k :=
  split; [reflexivity|];
  split; [reflexivity|];
  split; [exists k; reflexivity|];
  split; [discriminate|];
  split; [cbn [removelast]; repeat constructor|];
  (split;
   [ first [ discriminate | intros _; split; [reflexivity | repeat constructor] ]
   | intros [Hlen Hall]; first [ reflexivity | discriminate Hlen | refute_all_returned Hall ] ]).

(** C9. The calls of [handle_email] on the backend and the gateway for
    one email are, in their order, the beginning of one fixed sequence:
    person lookup, case added, email fetched, document uploaded, document
    attached to the identifier of the case just added, email moved.  Each
    of them is made only when all calls before it have returned, none is
    made twice and none comes after the move.  So a call of the
    attachment is made only after a call adding the case has returned,
    the email is moved only after a call attaching the document to that
    case has returned, and [handle_email] returns exactly when all six
    calls were made and returned. *)
Theorem handle_email_step_order (email : Email) (ga : GraphAccess) (na : NovaAccess)
    (w : World) :
  exists tr,
    trace (snd (handle_email config env email ga na w)) = trace w ++ tr
    /\ preceded_by case_created is_attachment_step tr
    /\ preceded_by document_attached is_move_email tr
    /\ count is_add_case tr <= 1
    /\ count is_attach_document tr <= 1
    /\ count is_move_email tr <= 1
    /\ (tr = []
        \/ exists cpr case mime doc steps last,
             tr = [returned (CreateQueueElement (QUEUE_NAME config)
                               (cpr ++ " - " ++ received_time email)%string)]
                  ++ steps ++ [last]
             /\ is_set_status last = true
             /\ (exists k, map call steps = firstn k (guarded_calls email cpr case mime doc))
             /\ steps <> []
             /\ Forall (fun ev => has_returned ev = true) (removelast steps)
             /\ (fst (handle_email config env email ga na w) = Ok tt
                 <-> List.length steps = 6
                     /\ Forall (fun ev => has_returned ev = true) steps)).
Proof.
  destruct (handle_email config env email ga na w) as [r w'] eqn:H. cbn [fst snd].
  use_run H.
  1,2: subst w'; exists []; rewrite app_nil_r;
       repeat split; try (cbn; lia); try (now left);
       intros i ev Hnth; destruct i; cbn in Hnth; discriminate Hnth.
  eexists. split; [exact Htrace|].
  pose (no_case := mkNovaCase "" "" d0 "" [] "" "" ""
                     (mkDepartment 0 "" "") (mkDepartment 0 "" "") (mkCaseworker "" "" "")).
  pose (no_doc := mkDocument "" "" "" "" "" false "").
  inversion Hrun; subst; cbn [app];
    (split; [solve_preceded|]); (split; [solve_preceded|]);
    (split; [cbn; lia|]); (split; [cbn; lia|]); (split; [cbn; lia|]); right.
  - exists cpr0, no_case, [], no_doc. eexists [_], _. close_step_order 1.
  - exists cpr0, no_case, [], no_doc. eexists [_], _. close_step_order 1.
  - exists cpr0, case, [], no_doc. eexists [_; _], _. close_step_order 2.
  - exists cpr0, case, [], no_doc. eexists [_; _; _], _. close_step_order 3.
  - exists cpr0, case, mime, no_doc. eexists [_; _; _; _], _. close_step_order 4.
  - exists cpr0, case, mime, doc. eexists [_; _; _; _; _], _. close_step_order 5.
  - exists cpr0, case, mime, doc. eexists [_; _; _; _; _; _], _. close_step_order 6.
  - exists cpr0, case, mime, doc. eexists [_; _; _; _; _; _], _. close_step_order 6.
Qed.




Lemma selected_iff (mail : Email) :
  selected mail = true
  <-> sender mail = "noreply@aarhus.dk"
      /\ subject mail = "Erklæring - økonomisk fripladstilskud".
Proof.
  unfold selected. rewrite andb_true_iff, !String.eqb_eq. reflexivity.
Qed.

Lemma filter_selection (mails : list Email) : selection mails (filter selected mails).
Proof.
  induction mails as [|mail mails IH]; simpl; [constructor|].
  destruct (selected mail) eqn:E.
  - apply selected_iff in E. destruct E. now constructor.
  - apply selection_drop; [|exact IH].
    intros Hm. apply selected_iff in Hm. congruence.
Qed.

Lemma selection_unique (mails kept : list Email) :
  selection mails kept -> kept = filter selected mails.
Proof.
  induction 1 as [|mail mails kept Hs Hj _ IH|mail mails kept Hn _ IH]; simpl.
  - reflexivity.
  - assert (E : selected mail = true) by (apply selected_iff; now split).
    now rewrite E, IH.
  - destruct (selected mail) eqn:E; [|exact IH].
    apply selected_iff in E. contradiction.
Qed.

(** C4. When the gateway returns [mails] for the fixed mailbox and
    folder, [get_emails] makes that one call and returns the emails of
    [mails] whose sender is [noreply@aarhus.dk] and whose subject is the
    fixed subject, in the order of [mails]; an email failing either test
    is left out, and nothing else is. *)
Theorem get_emails_selects (ga : GraphAccess) (w : World) (mails : list Email) :
  env_get_emails_from_folder env w "kontrolteamet@mkb.aarhus.dk"
    "Indbakke/Enlig forsørgerprojekt/Kvitteringer til journalisering" ga = Ok mails ->
  exists kept,
    get_emails env ga w
      = (Ok kept,
         log (returned (GetEmailsFromFolder "kontrolteamet@mkb.aarhus.dk"
                "Indbakke/Enlig forsørgerprojekt/Kvitteringer til journalisering")) w)
    /\ selection mails kept
    /\ (forall kept', selection mails kept' -> kept' = kept)
    /\ (forall mail, In mail kept <->
          In mail mails
          /\ sender mail = "noreply@aarhus.dk"
          /\ subject mail = "Erklæring - økonomisk fripladstilskud").
Proof.
  intros H. exists (filter selected mails). split; [|split; [|split]].
  - unfold get_emails, get_emails_from_folder, bind, external, ret, source_folder.
    cbv zeta. rewrite H. reflexivity.
  - apply filter_selection.
  - apply selection_unique.
  - intros mail. rewrite filter_In, selected_iff. reflexivity.
Qed.

(** C7. [create_case] asks the backend for the person of the identifier
    and then adds a case, whatever cases exist: these two are its only
    calls, and once the person's name is known the second is always made.
    The case added is new: its identifier is the next value of the
    identifier generator (different from every value drawn before, when
    the generator never repeats itself), its title carries the current
    year, its date is the given one, its state is [Afsluttet] (closed),
    its one party is the person with role [Primær] (primary), and its
    classification, sensitivity, department and caseworker are the fixed
    ones.  When the call adding it returns, [create_case] returns that
    case. *)
Theorem create_case_adds_new_case (cpr : string) (d : datetime) (na : NovaAccess)
    (w : World) :
  (forall case w',
      create_case env cpr d na w = (Ok case, w') ->
      exists address name,
        env_get_address_by_cpr env w cpr na = Ok address
        /\ getitem address "name" = Ok name
        /\ case =
             {| case_uuid := env_uuid4 env (uuid_draws w);
                case_title :=
                  ("Projekt enlig forsørger "
                   ++ str_int (year (env_now env (log (returned (GetAddressByCpr cpr)) w))))%string;
                case_date := d;
                progress_state := "Afsluttet";
                case_parties :=
                  [ {| role := "Primær";
                       identification_type := "CprNummer";
                       identification := cpr;
                       party_name := name;
                       party_uuid := None |} ];
                kle_number := "32.45.04";
                proceeding_facet := "G01";
                case_sensitivity := "Fortrolige";
                responsible_department := mkDepartment 70363 "Kontrolteamet" "4BKONTROL";
                security_unit := mkDepartment 70363 "Kontrolteamet" "4BKONTROL";
                caseworker :=
                  mkCaseworker "3eb31cbb-d6dc-4b01-9eec-0b415f5b89cb"
                    "Rpabruger Rpa15 - MÅ IKKE SLETTES RITM0055928" "AZRPA15" |}
        /\ trace w' = trace w ++ [returned (GetAddressByCpr cpr); returned (AddCase case)]
        /\ queue w' = queue w
        /\ uuid_draws w' = S (uuid_draws w)
        /\ ((forall m n, env_uuid4 env m = env_uuid4 env n -> m = n) ->
            forall n, n < uuid_draws w -> env_uuid4 env n <> case_uuid case))
  /\ (forall address name,
        env_get_address_by_cpr env w cpr na = Ok address ->
        getitem address "name" = Ok name ->
        exists case,
          trace (snd (create_case env cpr d na w))
            = trace w
              ++ [returned (GetAddressByCpr cpr);
                  mkEvent (AddCase case) (outcome (fst (create_case env cpr d na w)))]
          /\ (outcome (fst (create_case env cpr d na w)) = None ->
              fst (create_case env cpr d na w) = Ok case)).
Proof.
  split.
  - intros case w' H. unfold_steps H. split_outcomes H; try discriminate.
    inversion H; subst; clear H. cbn [queue trace uuid_draws case_uuid].
    do 2 eexists. split; [reflexivity|]. split; [eassumption|].
    split; [reflexivity|]. split; [now rewrite <- app_assoc|].
    split; [reflexivity|]. split; [reflexivity|].
    intros Hinj n Hn Heq. apply Hinj in Heq. lia.
  - intros address name Ha Hn.
    destruct (create_case env cpr d na w) as [r w'] eqn:H.
    unfold_steps H. rewrite Ha in H. cbv beta iota in H. rewrite Hn in H.
    cbv beta iota in H. split_outcomes H; inversion H; subst; clear H;
      cbn [fst snd trace outcome]; rewrite <- app_assoc; cbn [app];
      eexists; (split; [reflexivity|]); [reflexivity | discriminate].
Qed.

(* ------------------------------------------------------------------ *)
(** ** Further properties of the steps *)

(** When [attach_email_to_case] returns, it has fetched the email once,
    uploaded the bytes the gateway gave under the fixed file name, and
    attached to the given case a document whose identifier is the one the
    backend gave for that upload, dated with the email's received time and
    carrying the fixed title, sensitivity, type and description.  The
    queue and the identifier generator are untouched. *)
Theorem attach_email_to_case_returns (email : Email) (case : NovaCase)
    (ga : GraphAccess) (na : NovaAccess) (w w' : World) :
  attach_email_to_case env email case ga na w = (Ok tt, w') ->
  exists mime doc_uuid,
    env_get_email_as_mime env w email ga = Ok mime
    /\ env_upload_document env (log (returned (GetEmailAsMime email)) w)
         mime "Email kvittering.eml" na = Ok doc_uuid
    /\ trace w' =
         trace w
         ++ [returned (GetEmailAsMime email);
             returned (UploadDocument mime "Email kvittering.eml");
             returned (AttachDocumentToCase (case_uuid case)
                         {| document_uuid := doc_uuid;
                            document_title := "Email kvittering";
                            document_sensitivity := "Fortrolige";
                            document_type := "Indgående";
                            document_date := received_time email;
                            approved := true;
                            description := "Automatisk journaliseret af robot." |})]
    /\ queue w' = queue w
    /\ uuid_draws w' = uuid_draws w.
Proof.
  intros H. unfold_steps H. split_outcomes H; try discriminate.
  inversion H; subst; clear H. cbn [queue trace uuid_draws].
  do 2 eexists. split; [reflexivity|]. split; [eassumption|].
  repeat rewrite <- app_assoc. repeat split.
Qed.

(** When [attach_email_to_case] raises, the exception is that of the last
    call it made, every call before that one returned, and no document
    has been attached.  It makes calls of the attachment only (at most
    three) and leaves the queue and the identifier generator alone. *)
Theorem attach_email_to_case_raises (email : Email) (case : NovaCase)
    (ga : GraphAccess) (na : NovaAccess) (w w' : World) (e : exn) :
  attach_email_to_case env email case ga na w = (Raise e, w') ->
  exists before c,
    trace w' = trace w ++ before ++ [failed c e]
    /\ Forall (fun ev => has_returned ev = true) before
    /\ Forall (fun ev => is_attachment_step ev = true) (before ++ [failed c e])
    /\ List.length before <= 2
    /\ count document_attached (before ++ [failed c e]) = 0
    /\ queue w' = queue w
    /\ uuid_draws w' = uuid_draws w.
Proof.
  intros H. unfold_steps H. split_outcomes H; try discriminate;
    inversion H; subst; clear H; cbn [queue trace uuid_draws];
    repeat rewrite <- app_assoc; cbn [app].
  - eexists [_; _], _. split; [reflexivity|].
    repeat split; repeat constructor.
  - eexists [_], _. split; [reflexivity|].
    repeat split; repeat constructor.
  - exists [], (GetEmailAsMime email). split; [reflexivity|].
    repeat split; repeat constructor.
Qed.

(** When [create_case] raises, no case has been created.  Either the
    person lookup raised, or its answer has no name ([KeyError]), and then
    no call adding a case was made and no identifier was drawn; or the
    call adding the case raised, and then one identifier was drawn for
    the case that was refused. *)
Theorem create_case_raises (cpr : string) (d : datetime) (na : NovaAccess)
    (w w' : World) (e : exn) :
  create_case env cpr d na w = (Raise e, w') ->
  queue w' = queue w
  /\ ((env_get_address_by_cpr env w cpr na = Raise e
       /\ trace w' = trace w ++ [failed (GetAddressByCpr cpr) e]
       /\ uuid_draws w' = uuid_draws w)
      \/ (e = KeyError "name"
          /\ (exists address,
                env_get_address_by_cpr env w cpr na = Ok address
                /\ getitem address "name" = Raise (KeyError "name"))
          /\ trace w' = trace w ++ [returned (GetAddressByCpr cpr)]
          /\ uuid_draws w' = uuid_draws w)
      \/ (exists case,
            case_uuid case = env_uuid4 env (uuid_draws w)
            /\ trace w' = trace w ++ [returned (GetAddressByCpr cpr); failed (AddCase case) e]
            /\ uuid_draws w' = S (uuid_draws w))).
Proof.
  intros H. unfold_steps H. split_outcomes H; try discriminate;
    inversion H; subst; clear H; cbn [queue trace uuid_draws];
    (split; [reflexivity|]).
  - right; right. eexists. split; [|split; [now rewrite <- app_assoc | reflexivity]].
    reflexivity.
  - right; left.
    match goal with Hg : getitem _ _ = Raise _ |- _ =>
      pose proof (getitem_raises _ _ _ Hg) as He; subst e end.
    split; [reflexivity|]. split; [eexists; split; [reflexivity | eassumption]|].
    split; reflexivity.
  - left. repeat split.
Qed.

(** When [handle_email] returns, the case it added belongs to this email:
    its one party is identified by the identifier read from the body and
    named as the backend's lookup for that identifier says, and its date is
    the parsed received time.  The document attached to that case is the
    upload of this email: the bytes uploaded are those the gateway gave
    for it, the document's identifier is the backend's answer to the
    upload, and its date is the email's received-time string. *)
Theorem handle_email_case_and_document (email : Email) (ga : GraphAccess)
    (na : NovaAccess) (w w' : World) :
  handle_email config env email ga na w = (Ok tt, w') ->
  exists cpr d name case mime doc,
    get_cpr_from_email email = Ok cpr
    /\ env_fromisoformat env (received_time email) = Ok d
    /\ trace w' =
         trace w
         ++ [returned (CreateQueueElement (QUEUE_NAME config)
                         (cpr ++ " - " ++ received_time email)%string);
             returned (GetAddressByCpr cpr);
             returned (AddCase case);
             returned (GetEmailAsMime email);
             returned (UploadDocument mime "Email kvittering.eml");
             returned (AttachDocumentToCase (case_uuid case) doc);
             returned (MoveEmail email journalized_folder);
             returned (SetQueueElementStatus (fresh_id (queue w)) DONE None)]
    /\ case_uuid case = env_uuid4 env (uuid_draws w)
    /\ case_date case = d
    /\ case_parties case = [mkCaseParty "Primær" "CprNummer" cpr name None]
    /\ (exists w1 address,
          env_get_address_by_cpr env w1 cpr na = Ok address
          /\ getitem address "name" = Ok name)
    /\ (exists w2, env_get_email_as_mime env w2 email ga = Ok mime)
    /\ (exists w3,
          env_upload_document env w3 mime "Email kvittering.eml" na
          = Ok (document_uuid doc))
    /\ document_date doc = received_time email
    /\ document_title doc = "Email kvittering"
    /\ uuid_draws w' = S (uuid_draws w).
Proof.
  intros H. unfold_steps H. split_outcomes H; try discriminate.
  inversion H; subst; clear H. cbn [queue trace uuid_draws element_id].
  match goal with
  | Hcpr : get_cpr_from_email _ = Ok ?cpr,
    Hd : env_fromisoformat _ _ = Ok ?d,
    Hn : getitem _ _ = Ok ?n,
    Hc : env_add_case _ _ ?c _ = _,
    Hu : env_upload_document _ _ ?m _ _ = _,
    Ha : env_attach_document_to_case _ _ _ ?doc _ = _ |- _ =>
      exists cpr, d, n, c, m, doc
  end.
  split; [reflexivity|]. split; [reflexivity|].
  split; [repeat rewrite <- app_assoc; reflexivity|].
  split; [reflexivity|]. split; [reflexivity|]. split; [reflexivity|].
  split; [do 2 eexists; split; eassumption|].
  split; [eexists; eassumption|].
  split; [eexists; eassumption|].
  repeat split.
Qed.

(* ------------------------------------------------------------------ *)
(** ** Further properties of [process] *)

(** All runs of [process]: either a call before the loop raises and the
    run ends there, or the seven calls before the loop return and the run
    ends as the loop over the selected emails ends. *)
Lemma process_run (w w' : World) (r : Result unit) :
  process config env w = (r, w') ->
  (exists e tr,
      r = Raise e
      /\ prologue_stop config e tr
      /\ trace w' = trace w ++ tr
      /\ queue w' = queue w
      /\ uuid_draws w' = uuid_draws w)
  \/ (exists gc nc ga na mails w0,
        (exists v, env_get_credential env v (GRAPH_API config) = Ok gc)
        /\ (exists v, env_authorize env v (username gc) (password gc) = Ok ga)
        /\ (exists v, env_get_credential env v (NOVA_API config) = Ok nc)
        /\ (exists v, env_nova_access env v (username nc) (password nc) = Ok na)
        /\ (exists v, env_get_emails_from_folder env v "kontrolteamet@mkb.aarhus.dk"
                        "Indbakke/Enlig forsørgerprojekt/Kvitteringer til journalisering" ga
                      = Ok mails)
        /\ trace w0 = trace w ++ prologue config gc nc (List.length (filter selected mails))
        /\ queue w0 = queue w
        /\ uuid_draws w0 = uuid_draws w
        /\ for_each (filter selected mails)
             (fun email => handle_email config env email ga na) w0 = (r, w')).
Proof.
  intros H.
  cbv beta iota zeta delta
    [process get_emails bind ret external log log_trace log_info get_credential
     authorize_by_username_password new_nova_access get_emails_from_folder
     source_folder outcome] in H.
  cbn [queue trace uuid_draws] in H.
  destruct (env_get_credential env _ (GRAPH_API config)) as [gc|e] eqn:E1 in H;
    cbv beta iota in H.
  2:{ left. inversion H; subst. exists e. eexists. cbn [queue trace uuid_draws].
      rewrite <- app_assoc. repeat split. constructor. }
  destruct (env_authorize env _ (username gc) (password gc)) as [ga|e] eqn:E2 in H;
    cbv beta iota in H.
  2:{ left. inversion H; subst. exists e. eexists. cbn [queue trace uuid_draws].
      repeat rewrite <- app_assoc. repeat split. apply (stop_authorize _ _ gc). }
  destruct (env_get_credential env _ (NOVA_API config)) as [nc|e] eqn:E3 in H;
    cbv beta iota in H.
  2:{ left. inversion H; subst. exists e. eexists. cbn [queue trace uuid_draws].
      repeat rewrite <- app_assoc. repeat split. apply (stop_nova_credential _ _ gc). }
  destruct (env_nova_access env _ (username nc) (password nc)) as [na|e] eqn:E4 in H;
    cbv beta iota in H.
  2:{ left. inversion H; subst. exists e. eexists. cbn [queue trace uuid_draws].
      repeat rewrite <- app_assoc. repeat split. apply (stop_nova_access _ _ gc nc). }
  destruct (env_get_emails_from_folder env _ _ _ ga) as [mails|e] eqn:E5 in H;
    cbv beta iota in H.
  2:{ left. inversion H; subst. exists e. eexists. cbn [queue trace uuid_draws].
      repeat rewrite <- app_assoc. repeat split. apply (stop_get_emails _ _ gc nc). }
  right. exists gc, nc, ga, na, mails. eexists.
  split; [eexists; exact E1|]. split; [eexists; exact E2|].
  split; [eexists; exact E3|]. split; [eexists; exact E4|].
  split; [eexists; exact E5|].
  split; [|split; [|split; [|exact H]]]; cbn [queue trace uuid_draws]; try reflexivity.
  repeat rewrite <- app_assoc. reflexivity.
Qed.

Lemma count_app (p : Event -> bool) (a b : list Event) :
  count p (a ++ b) = count p a + count p b.
Proof.
  unfold count. now rewrite filter_app, length_app.
Qed.

Lemma submitted_uuids_app (a b : list Event) :
  submitted_uuids (a ++ b) = submitted_uuids a ++ submitted_uuids b.
Proof.
  induction a as [|ev a IH]; cbn [app submitted_uuids]; [reflexivity|].
  destruct (call ev); rewrite IH; reflexivity.
Qed.

(** What one run of [handle_email] adds to the log and to the queue. *)
Lemma handle_email_shape (email : Email) (ga : GraphAccess) (na : NovaAccess)
    (w w' : World) (r : Result unit) :
  handle_email config env email ga na w = (r, w') ->
  exists tr els,
    trace w' = trace w ++ tr
    /\ queue w' = queue w ++ els
    /\ count is_create_queue_element tr = List.length els
    /\ ((r = Ok tt
         /\ map status els = [DONE]
         /\ count email_moved tr = 1
         /\ count case_created tr = 1)
        \/ (exists exc,
              r = Raise exc
              /\ count email_moved tr = 0
              /\ ((els = [] /\ tr = [])
                  \/ (map status els = [FAILED] /\ count case_created tr <= 1)))).
Proof.
  intros H. use_run H.
  - subst. exists [], []. rewrite !app_nil_r.
    repeat split. right. exists e0. repeat split. now left.
  - subst. exists [], []. rewrite !app_nil_r.
    repeat split. right. exists e0. repeat split. now left.
  - do 2 eexists. split; [exact Htrace|]. split; [exact Hqueue|].
    inversion Hrun; subst; (split; [reflexivity|]).
    1-7: right; eexists; split; [reflexivity|]; split; [reflexivity|];
         right; split; [reflexivity | cbn; lia].
    left. repeat split.
Qed.

(** What the loop of [process] adds to the log and to the queue: rows in
    status [DONE] for the emails handled, then at most one row in status
    [FAILED]. *)
Lemma batch_shape (emails : list Email) (ga : GraphAccess) (na : NovaAccess)
    (w w' : World) (r : Result unit) :
  for_each emails (fun email => handle_email config env email ga na) w = (r, w') ->
  exists tr els n tail,
    trace w' = trace w ++ tr
    /\ queue w' = queue w ++ els
    /\ map status els = repeat DONE n ++ tail
    /\ (tail = [] \/ (tail = [FAILED] /\ exists exc, r = Raise exc))
    /\ count email_moved tr = n
    /\ n <= count case_created tr <= n + List.length tail
    /\ count is_create_queue_element tr = List.length els
    /\ n <= List.length emails
    /\ (r = Ok tt -> tail = [] /\ n = List.length emails).
Proof.
  revert w; induction emails as [|email emails IH]; intros w H.
  - cbn in H. inversion H; subst. exists [], [], 0, [].
    rewrite !app_nil_r. cbn. repeat split; auto.
  - cbn [for_each] in H. unfold bind in H.
    destruct (handle_email config env email ga na w) as [[[]|exc] w1] eqn:E.
    + apply handle_email_shape in E.
      destruct E as (tr1 & els1 & Ht1 & Hq1 & Hc1 & [(_ & Hs1 & Hm1 & Hk1) | (exc & Hr & _)]);
        [|discriminate].
      apply IH in H.
      destruct H as (tr2 & els2 & n & tail & Ht2 & Hq2 & Hs2 & Htail & Hm2 & Hk2 & Hc2 & Hn & Hok).
      exists (tr1 ++ tr2), (els1 ++ els2), (S n), tail.
      rewrite Ht2, Ht1, Hq2, Hq1, <- !app_assoc, map_app, Hs1, Hs2, !count_app, length_app.
      cbn [repeat app List.length].
      repeat split; try lia; try assumption.
      all: match goal with
           | Hr : _ = Ok tt |- _ => destruct (Hok Hr); first [assumption | lia]
           end.
    + inversion H; subst r w1. clear H.
      apply handle_email_shape in E.
      destruct E as (tr1 & els1 & Ht1 & Hq1 & Hc1 & [(Hr & _) | (exc' & Hr & Hm1 & Hcase)]);
        [discriminate|].
      destruct Hcase as [(-> & ->) | (Hs1 & Hk1)].
      * exists [], [], 0, []. rewrite Ht1, Hq1. cbn.
        repeat split; auto; try lia. discriminate.
      * exists tr1, els1, 0, [FAILED]. cbn [repeat app List.length].
        repeat split; try assumption; try lia.
        -- right. split; [reflexivity | eauto].
        -- discriminate.
        -- discriminate.
Qed.

(** The rows added by a loop that returns, one for each email and in the
    order of the emails. *)
Lemma batch_done (emails : list Email) (ga : GraphAccess) (na : NovaAccess)
    (w w' : World) :
  for_each emails (fun email => handle_email config env email ga na) w = (Ok tt, w') ->
  exists els,
    queue w' = queue w ++ els
    /\ Forall2
         (fun email el =>
            exists cpr,
              get_cpr_from_email email = Ok cpr
              /\ reference el = (cpr ++ " - " ++ received_time email)%string
              /\ queue_name el = QUEUE_NAME config
              /\ status el = DONE
              /\ message el = None)
         emails els.
Proof.
  revert w; induction emails as [|email emails IH]; intros w H.
  - cbn in H. inversion H; subst. exists []. rewrite app_nil_r. split; constructor.
  - cbn [for_each] in H. unfold bind in H.
    destruct (handle_email config env email ga na w) as [[[]|exc] w1] eqn:E;
      [|discriminate].
    use_run E; try discriminate.
    apply IH in H. destruct H as (els & Hq & Hall).
    eexists (_ :: els). split.
    + rewrite Hq, Hqueue, <- app_assoc. reflexivity.
    + constructor; [|exact Hall]. exists cpr0. cbn. repeat split. exact Hcpr.
Qed.

Lemma handle_email_uuids (email : Email) (ga : GraphAccess) (na : NovaAccess)
    (w w' : World) (r : Result unit) :
  handle_email config env email ga na w = (r, w') ->
  exists tr,
    trace w' = trace w ++ tr
    /\ uuid_draws w <= uuid_draws w'
    /\ submitted_uuids tr
       = map (env_uuid4 env) (seq (uuid_draws w) (uuid_draws w' - uuid_draws w)).
Proof.
  intros H. unfold_steps H. split_outcomes H;
    inversion H; subst; clear H; cbn [queue trace uuid_draws];
    repeat rewrite <- app_assoc; cbn [app];
    first [ eexists; split; [reflexivity|]
          | exists []; rewrite app_nil_r; split; [reflexivity|] ];
    (split; [lia|]);
    first [ rewrite Nat.sub_diag
          | replace (S (uuid_draws w) - uuid_draws w) with 1 by lia ];
    reflexivity.
Qed.

Lemma batch_uuids (emails : list Email) (ga : GraphAccess) (na : NovaAccess)
    (w w' : World) (r : Result unit) :
  for_each emails (fun email => handle_email config env email ga na) w = (r, w') ->
  exists tr,
    trace w' = trace w ++ tr
    /\ uuid_draws w <= uuid_draws w'
    /\ submitted_uuids tr
       = map (env_uuid4 env) (seq (uuid_draws w) (uuid_draws w' - uuid_draws w)).
Proof.
  revert w; induction emails as [|email emails IH]; intros w H.
  - cbn in H. inversion H; subst. exists []. rewrite app_nil_r, Nat.sub_diag.
    repeat split. lia.
  - cbn [for_each] in H. unfold bind in H.
    destruct (handle_email config env email ga na w) as [[[]|exc] w1] eqn:E;
      apply handle_email_uuids in E; destruct E as (tr1 & Ht1 & Hle1 & Hu1).
    + apply IH in H. destruct H as (tr2 & Ht2 & Hle2 & Hu2).
      exists (tr1 ++ tr2). rewrite Ht2, Ht1, <- app_assoc.
      split; [reflexivity|]. split; [lia|].
      rewrite submitted_uuids_app, Hu1, Hu2, <- map_app. f_equal.
      replace (uuid_draws w' - uuid_draws w)
        with ((uuid_draws w1 - uuid_draws w) + (uuid_draws w' - uuid_draws w1)) by lia.
      rewrite seq_app. do 2 f_equal. lia.
    + inversion H; subst. exists tr1. auto.
Qed.


Lemma prologue_stop_no_effect (e : exn) (tr : list Event) :
  prologue_stop config e tr ->
  submitted_uuids tr = []
  /\ count email_moved tr = 0
  /\ count case_created tr = 0
  /\ count is_create_queue_element tr = 0.
Proof.
  intros H. inversion H; repeat split.
Qed.



(** Nothing is undone when the [try] body of [handle_email] raises: after
    the failing call the only call made is the status update.  The
    exception is the one of the last call of the body, all earlier calls
    having returned, or it is the [KeyError] of a lookup answer without
    name.  When the failing call belongs to the attachment or is the
    move, the case added just before stays added. *)
Theorem handle_email_no_rollback (email : Email) (ga : GraphAccess) (na : NovaAccess)
    (w w' : World) (cpr : string) (d : datetime) (exc : exn) :
  get_cpr_from_email email = Ok cpr ->
  env_fromisoformat env (received_time email) = Ok d ->
  handle_email config env email ga na w = (Raise exc, w') ->
  exists steps,
    trace w' =
      trace w
      ++ [returned (CreateQueueElement (QUEUE_NAME config)
                      (cpr ++ " - " ++ received_time email)%string)]
      ++ steps
      ++ [returned (SetQueueElementStatus (fresh_id (queue w)) FAILED
                      (Some (str_exc exc)))]
    /\ ((exists before c,
           steps = before ++ [failed c exc]
           /\ Forall (fun ev => has_returned ev = true) before
           /\ (is_attachment_step (failed c exc) = true
               \/ is_move_email (failed c exc) = true ->
               count case_created before = 1))
        \/ (exc = KeyError "name" /\ steps = [returned (GetAddressByCpr cpr)])).
Proof.
  intros Hc Hd H. use_run H; try congruence.
  assert (cpr0 = cpr) by congruence. subst cpr0.
  exists tr0. split; [exact Htrace|].
  inversion Hrun; subst.
  - left. exists [], (GetAddressByCpr cpr). repeat split; [constructor|].
    intros [F|F]; discriminate F.
  - right. now split.
  - left. eexists [_], _. split; [reflexivity|]. split; [repeat constructor|].
    intros [F|F]; discriminate F.
  - left. eexists [_; _], _. split; [reflexivity|]. split; [repeat constructor|].
    reflexivity.
  - left. eexists [_; _; _], _. split; [reflexivity|]. split; [repeat constructor|].
    reflexivity.
  - left. eexists [_; _; _; _], _. split; [reflexivity|]. split; [repeat constructor|].
    reflexivity.
  - left. eexists [_; _; _; _; _], _. split; [reflexivity|]. split; [repeat constructor|].
    reflexivity.
Qed.

(** [process] begins with the same calls on every run: the trace log, the
    credential stored under [GRAPH_API], the login with that credential,
    the credential stored under [NOVA_API], the backend access made from
    it, the listing of the fixed folder, and the info log with the number
    of emails selected (not the number listed).  When one of these calls
    raises, [process] ends there with that exception: no queue element
    was created and no identifier drawn.  Otherwise it goes on with the
    loop over the selected emails, and when none is selected it returns
    at once, leaving the queue as it was. *)
Theorem process_prologue_then_loop (w w' : World) (r : Result unit) :
  process config env w = (r, w') ->
  (exists e tr,
      r = Raise e
      /\ prologue_stop config e tr
      /\ trace w' = trace w ++ tr
      /\ queue w' = queue w
      /\ uuid_draws w' = uuid_draws w)
  \/ (exists gc nc ga na mails tr,
        (exists v, env_get_credential env v (GRAPH_API config) = Ok gc)
        /\ (exists v, env_authorize env v (username gc) (password gc) = Ok ga)
        /\ (exists v, env_get_credential env v (NOVA_API config) = Ok nc)
        /\ (exists v, env_nova_access env v (username nc) (password nc) = Ok na)
        /\ (exists v, env_get_emails_from_folder env v "kontrolteamet@mkb.aarhus.dk"
                        "Indbakke/Enlig forsørgerprojekt/Kvitteringer til journalisering" ga
                      = Ok mails)
        /\ trace w' =
             trace w
             ++ prologue config gc nc (List.length (filter selected mails))
             ++ tr
        /\ (exists w0,
              trace w' = trace w0 ++ tr
              /\ for_each (filter selected mails)
                   (fun email => handle_email config env email ga na) w0 = (r, w'))
        /\ (filter selected mails = [] ->
            r = Ok tt /\ tr = [] /\ queue w' = queue w)).
Proof.
  intros H. apply process_run in H.
  destruct H as [H | (gc & nc & ga & na & mails & w0 & H1 & H2 & H3 & H4 & H5
                      & Ht0 & Hq0 & Hu0 & Hloop)]; [left; exact H|].
  right. destruct (batch_shape _ _ _ _ _ _ Hloop) as (tr & _ & _ & _ & Htr & _).
  exists gc, nc, ga, na, mails, tr.
  repeat (split; [assumption|]).
  split; [now rewrite Htr, Ht0, <- app_assoc|].
  split; [exists w0; split; assumption|].
  intros Hnone. rewrite Hnone in Hloop. cbn in Hloop. inversion Hloop; subst.
  split; [reflexivity|]. split; [|exact Hq0].
  apply (app_inv_head (trace w')). now rewrite app_nil_r.
Qed.

(** When [process] returns, every selected email has been handled: the
    queue has one new row for each of them, in their order, with the
    reference made of its identifier and received time, in status [DONE]
    and without message; as many emails were moved and as many cases
    created as emails were selected, and the number logged before the
    loop is that number. *)
Theorem process_returns (w w' : World) :
  process config env w = (Ok tt, w') ->
  exists gc nc ga mails tr els,
    (exists v, env_get_emails_from_folder env v "kontrolteamet@mkb.aarhus.dk"
                 "Indbakke/Enlig forsørgerprojekt/Kvitteringer til journalisering" ga
               = Ok mails)
    /\ trace w' =
         trace w
         ++ prologue config gc nc (List.length (filter selected mails))
         ++ tr
    /\ queue w' = queue w ++ els
    /\ Forall2
         (fun email el =>
            exists cpr,
              get_cpr_from_email email = Ok cpr
              /\ reference el = (cpr ++ " - " ++ received_time email)%string
              /\ queue_name el = QUEUE_NAME config
              /\ status el = DONE
              /\ message el = None)
         (filter selected mails) els
    /\ count email_moved tr = List.length (filter selected mails)
    /\ count case_created tr = List.length (filter selected mails)
    /\ count is_create_queue_element tr = List.length (filter selected mails).
Proof.
  intros H. apply process_run in H.
  destruct H as [(e & tr & Hr & _) | (gc & nc & ga & na & mails & w0 & H1 & H2 & H3 & H4 & H5
                                      & Ht0 & Hq0 & Hu0 & Hloop)]; [discriminate|].
  destruct (batch_shape _ _ _ _ _ _ Hloop)
    as (tr & els' & n & tail & Htr & Hq' & Hs & Htail & Hm & Hk & Hc & Hn & Hok).
  destruct (Hok eq_refl) as (-> & ->).
  destruct (batch_done _ _ _ _ _ Hloop) as (els & Hq & Hall).
  exists gc, nc, ga, mails, tr, els.
  split; [assumption|].
  split; [now rewrite Htr, Ht0, <- app_assoc|].
  split; [now rewrite Hq, Hq0|].
  split; [exact Hall|].
  split; [exact Hm|].
  cbn [List.length] in Hk. split; [lia|].
  assert (els' = els) by (rewrite Hq in Hq'; now apply app_inv_head in Hq').
  subst els'. rewrite Hc. symmetry. exact (Forall2_length Hall).
Qed.





Lemma map_keeps_NoDup {A B : Type} (f : A -> B) (l : list A) :
  (forall x y, f x = f y -> x = y) -> NoDup l -> NoDup (map f l).
Proof.
  intros Hinj Hl. induction Hl as [|x l Hx Hl IH]; cbn; constructor; [|exact IH].
  intros Hin. apply in_map_iff in Hin. destruct Hin as (y & Hy & Hin).
  apply Hinj in Hy. now subst y.
Qed.

(** The identifiers of the cases [process] hands to the backend in one
    run are the successive values of the identifier generator from where
    it stood: one value is drawn for each call adding a case and none is
    drawn otherwise.  With a generator that never repeats a value they
    are pairwise different, and different from every value drawn before
    the run. *)
Theorem process_case_identifiers (w w' : World) (r : Result unit) :
  process config env w = (r, w') ->
  exists tr,
    trace w' = trace w ++ tr
    /\ uuid_draws w <= uuid_draws w'
    /\ submitted_uuids tr
       = map (env_uuid4 env) (seq (uuid_draws w) (uuid_draws w' - uuid_draws w))
    /\ ((forall m n, env_uuid4 env m = env_uuid4 env n -> m = n) ->
        NoDup (submitted_uuids tr)
        /\ forall k, k < uuid_draws w -> ~ In (env_uuid4 env k) (submitted_uuids tr)).
Proof.
  intros H. apply process_run in H.
  assert (Hcore : exists tr,
             trace w' = trace w ++ tr
             /\ uuid_draws w <= uuid_draws w'
             /\ submitted_uuids tr
                = map (env_uuid4 env) (seq (uuid_draws w) (uuid_draws w' - uuid_draws w))).
  { destruct H as [(e & tr & Hr & Hstop & Ht & Hq & Hu)
                  | (gc & nc & ga & na & mails & w0 & _ & _ & _ & _ & _
                     & Ht0 & Hq0 & Hu0 & Hloop)].
    - destruct (prologue_stop_no_effect _ _ Hstop) as (Hs & _).
      exists tr. rewrite Hu, Nat.sub_diag, Hs. repeat split; auto.
    - destruct (batch_uuids _ _ _ _ _ _ Hloop) as (tr & Htr & Hle & Hs).
      exists (prologue config gc nc (List.length (filter selected mails)) ++ tr).
      rewrite submitted_uuids_app, Hs, Hu0 in *.
      split; [now rewrite Htr, Ht0, <- app_assoc|]. split; [exact Hle | reflexivity]. }
  destruct Hcore as (tr & Ht & Hle & Hs). exists tr.
  split; [exact Ht|]. split; [exact Hle|]. split; [exact Hs|].
  intros Hinj. rewrite Hs. split.
  - apply map_keeps_NoDup; [exact Hinj | apply seq_NoDup].
  - intros k Hk Hin. apply in_map_iff in Hin. destruct Hin as (j & Hj & Hin).
    apply in_seq in Hin. apply Hinj in Hj. lia.
Qed.

End WorkflowFacts.

(* ================================================================== *)
(** ** The properties on the sample mailbox *)

Section SampleRuns.

Import Sample.


Lemma handle_email_failure_recorded_witness :
  let fault := attach_fault "2024-03-05T09:12:44+00:00" in
  let exc := LibraryError "HTTPError" "500 Server Error: Internal Server Error" in
  let d := mkDatetime 2024 3 5 9 12 44 0 (Some 0%Z) in
  let w' := snd (handle fault email1 start) in
  get_cpr_from_email email1 = Ok "0101011234"
  /\ env_fromisoformat (env [] fault) (received_time email1) = Ok d
  /\ handle_email config (env [] fault) email1 graph_access nova_access start = (Raise exc, w')
  /\ exists tr,
       trace w' = trace start ++ tr
       /\ queue w' =
            queue start
            ++ [mkQueueElement (fresh_id (queue start)) (QUEUE_NAME config)
                  ("0101011234" ++ " - " ++ received_time email1)%string
                  FAILED (Some (str_exc exc))]
       /\ count is_set_status tr = 1
       /\ count email_moved tr = 0.
Proof.
  intros fault exc d w'.
  assert (Hc : get_cpr_from_email email1 = Ok "0101011234") by reflexivity.
  assert (Hd : env_fromisoformat (env [] fault) (received_time email1) = Ok d) by reflexivity.
  assert (H : handle_email config (env [] fault) email1 graph_access nova_access start
              = (Raise exc, w')) by (vm_compute; reflexivity).
  repeat (split; [assumption|]).
  exact (handle_email_failure_recorded config (env [] fault) email1 graph_access nova_access
           start w' "0101011234" d exc Hc Hd H).
Defined.

(** C2, as stated, fails: the message recorded is [str(exc)], and an
    exception without text leaves the empty message.  Here adding the case
    raises such an exception. *)
Lemma handle_email_empty_message_counterexample :
  let w' := snd (handle silent_fault email1 start) in
  handle_email config (env [] silent_fault) email1 graph_access nova_access start
    = (Raise (LibraryError "TimeoutError" ""), w')
  /\ map call (trace w')
     = [CreateQueueElement (QUEUE_NAME config) "0101011234 - 2024-03-05T09:12:44+00:00";
        GetAddressByCpr "0101011234";
        AddCase
          (mkNovaCase "7d4440f2-5a3c-4b8e-9d1f-0" "Projekt enlig forsørger 2024"
             (mkDatetime 2024 3 5 9 12 44 0 (Some 0%Z)) "Afsluttet"
             [mkCaseParty "Primær" "CprNummer" "0101011234" "Anna Jensen" None]
             "32.45.04" "G01" "Fortrolige"
             (mkDepartment 70363 "Kontrolteamet" "4BKONTROL")
             (mkDepartment 70363 "Kontrolteamet" "4BKONTROL")
             (mkCaseworker "3eb31cbb-d6dc-4b01-9eec-0b415f5b89cb"
                "Rpabruger Rpa15 - MÅ IKKE SLETTES RITM0055928" "AZRPA15"));
        SetQueueElementStatus 1 FAILED (Some "")]
  /\ map status (queue w') = [FAILED]
  /\ map message (queue w') = [Some ""].
Proof.
  vm_compute. repeat split.
Qed.

Lemma handle_email_queue_element_witness :
  let d := mkDatetime 2024 3 5 9 12 44 0 (Some 0%Z) in
  let r := fst (handle no_fault email1 start) in
  let w' := snd (handle no_fault email1 start) in
  get_cpr_from_email email1 = Ok "0101011234"
  /\ env_fromisoformat (env [] no_fault) (received_time email1) = Ok d
  /\ handle_email config (env [] no_fault) email1 graph_access nova_access start = (r, w')
  /\ exists tr st msg,
       trace w' =
         trace start
         ++ [returned (CreateQueueElement (QUEUE_NAME config)
                         ("0101011234" ++ " - " ++ received_time email1)%string)]
         ++ tr
         ++ [returned (SetQueueElementStatus (fresh_id (queue start)) st msg)]
       /\ count is_create_queue_element tr = 0
       /\ count is_set_status tr = 0
       /\ queue w' =
            queue start
            ++ [mkQueueElement (fresh_id (queue start)) (QUEUE_NAME config)
                  ("0101011234" ++ " - " ++ received_time email1)%string st msg]
       /\ (st = DONE \/ st = FAILED)
       /\ (r = Ok tt -> st = DONE /\ msg = None)
       /\ (forall exc, r = Raise exc -> st = FAILED /\ msg = Some (str_exc exc)).
Proof.
  intros d r w'.
  assert (Hc : get_cpr_from_email email1 = Ok "0101011234") by reflexivity.
  assert (Hd : env_fromisoformat (env [] no_fault) (received_time email1) = Ok d)
    by reflexivity.
  assert (H : handle_email config (env [] no_fault) email1 graph_access nova_access start
              = (r, w')) by (vm_compute; reflexivity).
  repeat (split; [assumption|]).
  exact (handle_email_queue_element config (env [] no_fault) email1 graph_access nova_access
           start w' r "0101011234" d Hc Hd H).
Defined.

(** C8, as stated, fails: a selected email whose body holds no identifier
    gets no queue element; its handling raises before one is created. *)
Lemma handle_email_no_queue_element_counterexample :
  selected blank_receipt = true
  /\ handle_email config (env [] no_fault) blank_receipt graph_access nova_access start
     = (Raise (IndexError "list index out of range"), start)
  /\ queue start = []
  /\ trace start = [].
Proof.
  vm_compute. repeat split.
Qed.


(** The run of the specification: three receipts, the document of the
    second is refused.  [process] ends with that exception; the queue
    holds two elements, [DONE] and [FAILED]; the third receipt is not
    touched. *)
Example process_three_emails_second_fails :
  let fault := attach_fault "2024-03-05T10:30:00+00:00" in
  let run := process config (env inbox fault) start in
  fst run = Raise (LibraryError "HTTPError" "500 Server Error: Internal Server Error")
  /\ map status (queue (snd run)) = [DONE; FAILED]
  /\ map reference (queue (snd run))
     = ["0101011234 - 2024-03-05T09:12:44+00:00"; "0202021234 - 2024-03-05T10:30:00+00:00"]
  /\ count is_create_queue_element (trace (snd run)) = 2
  /\ count is_add_case (trace (snd run)) = 2
  /\ count is_move_email (trace (snd run)) = 1.
Proof.
  vm_compute. repeat split.
Qed.


Lemma get_emails_selects_witness :
  env_get_emails_from_folder (env inbox no_fault) start "kontrolteamet@mkb.aarhus.dk"
    "Indbakke/Enlig forsørgerprojekt/Kvitteringer til journalisering" graph_access
    = Ok inbox
  /\ exists kept,
       get_emails (env inbox no_fault) graph_access start
         = (Ok kept,
            log (returned (GetEmailsFromFolder "kontrolteamet@mkb.aarhus.dk"
                   "Indbakke/Enlig forsørgerprojekt/Kvitteringer til journalisering")) start)
       /\ selection inbox kept
       /\ (forall kept', selection inbox kept' -> kept' = kept)
       /\ (forall mail, In mail kept <->
             In mail inbox
             /\ sender mail = "noreply@aarhus.dk"
             /\ subject mail = "Erklæring - økonomisk fripladstilskud").
Proof.
  assert (H : env_get_emails_from_folder (env inbox no_fault) start
                "kontrolteamet@mkb.aarhus.dk"
                "Indbakke/Enlig forsørgerprojekt/Kvitteringer til journalisering" graph_access
              = Ok inbox) by reflexivity.
  split; [exact H|].
  exact (get_emails_selects (env inbox no_fault) graph_access start inbox H).
Defined.

Example get_emails_sample :
  fst (get_emails (env inbox no_fault) graph_access start) = Ok [email1; email2; email3].
Proof. reflexivity. Qed.

Lemma str_int_injective (a b : Z) : str_int a = str_int b -> a = b.
Proof.
  unfold str_int. intros H.
  apply (f_equal NilEmpty.int_of_string) in H. rewrite !NilEmpty.isi in H.
  inversion H as [H']. now apply DecimalZ.to_int_inj.
Qed.

Lemma sample_uuid4_injective (mails : list Email) (fault : Call -> option exn) (m n : nat) :
  env_uuid4 (env mails fault) m = env_uuid4 (env mails fault) n -> m = n.
Proof.
  cbn [env_uuid4 env]. intros H.
  assert (H' : str_int (Z.of_nat m) = str_int (Z.of_nat n)).
  { cbn [String.append] in H. now inversion H. }
  apply str_int_injective in H'. lia.
Qed.

Lemma create_case_adds_new_case_witness :
  let d := mkDatetime 2024 3 5 10 30 0 0 (Some 0%Z) in
  let w := snd (handle no_fault email1 start) in
  let run := create_case (env [] no_fault) "0202021234" d nova_access w in
  exists case w',
    run = (Ok case, w')
    /\ case_uuid case = "7d4440f2-5a3c-4b8e-9d1f-1"
    /\ case_title case = "Projekt enlig forsørger 2024"
    /\ progress_state case = "Afsluttet"
    /\ case_parties case
       = [mkCaseParty "Primær" "CprNummer" "0202021234" "Anna Jensen" None]
    /\ trace w' = trace w ++ [returned (GetAddressByCpr "0202021234"); returned (AddCase case)]
    /\ uuid_draws w' = S (uuid_draws w)
    /\ (forall n, n < uuid_draws w -> env_uuid4 (env [] no_fault) n <> case_uuid case)
    /\ trace (snd run)
       = trace w ++ [returned (GetAddressByCpr "0202021234");
                     mkEvent (AddCase case) (outcome (fst run))].
Proof.
  intros d w run. subst run.
  destruct (create_case (env [] no_fault) "0202021234" d nova_access w) as [r w'] eqn:E.
  assert (Hr : exists case, r = Ok case).
  { assert (Hf : fst (create_case (env [] no_fault) "0202021234" d nova_access w) = r)
      by now rewrite E.
    rewrite <- Hf. vm_compute. eauto. }
  destruct Hr as (case & ->).
  destruct (create_case_adds_new_case (env [] no_fault) "0202021234" d nova_access w)
    as (Hok & Hcall).
  destruct (Hok case w' E) as (address & name & Ha & Hn & Hcase & Ht & Hq & Hu & Hfresh).
  assert (Hname : name = "Anna Jensen").
  { cbv in Ha. inversion Ha; subst address. cbv in Hn. now inversion Hn. }
  destruct (Hcall [("name", "Anna Jensen"); ("address", "Vej 1")] "Anna Jensen"
              eq_refl eq_refl) as (case' & Ht' & _).
  rewrite E in Ht'. cbn [fst snd outcome] in Ht'.
  assert (case' = case).
  { rewrite Ht in Ht'. apply app_inv_head in Ht'. now inversion Ht'. }
  subst case'.
  exists case, w'. split; [reflexivity|].
  rewrite Hcase at 1 2 3 4. subst name.
  repeat (split; [first [reflexivity | assumption]|]).
  split; [exact (Hfresh (sample_uuid4_injective [] no_fault))|].
  cbn [snd fst outcome]. exact Ht'.
Defined.

Lemma get_cpr_never_empty_witness :
  let email := receipt "AAMkAD-6" "2024-03-05T09:12:44+00:00" "0404041234" in
  let bare := mkEmail "kontrolteamet@mkb.aarhus.dk" "AAMkAD-7" "2024-03-05T09:12:44+00:00"
                "noreply@aarhus.dk" "Erklæring - økonomisk fripladstilskud"
                "CPR-nummerAdresse" in
  get_cpr_from_email email = Ok "0404041234"
  /\ "0404041234" <> EmptyString
  /\ has_newline "0404041234" = false
  /\ (forall pre x post,
        text bare = (pre ++ "CPR-nummer" ++ x ++ "Adresse" ++ post)%string ->
        x = EmptyString \/ has_newline x = true)
  /\ get_cpr_from_email bare = Raise (IndexError "list index out of range").
Proof.
  intros email bare.
  destruct get_cpr_never_empty as (Hne & Hfail & _).
  assert (H : get_cpr_from_email email = Ok "0404041234") by reflexivity.
  assert (Hall : forall pre x post,
             text bare = (pre ++ "CPR-nummer" ++ x ++ "Adresse" ++ post)%string ->
             x = EmptyString \/ has_newline x = true).
  { intros pre x post Ht.
    destruct x as [|c x]; [now left|]. right.
    destruct (has_newline (String c x)) eqn:En; [reflexivity|].
    exfalso.
    assert (Hno : Regex.findall (text bare) = []) by reflexivity.
    apply (proj1 (findall_nil_iff (text bare)) Hno pre (String c x) post).
    repeat split; [exact Ht | discriminate | exact En]. }
  destruct (Hne email _ H) as (H1 & H2).
  repeat (split; [assumption|]).
  exact (Hfail bare Hall).
Defined.

(* ------------------------------------------------------------------ *)
(** ** The further properties on the sample mailbox *)

Lemma attach_email_to_case_returns_witness :
  let w' := snd (attach_email_to_case (env [] no_fault) email1 case1
                   graph_access nova_access start) in
  attach_email_to_case (env [] no_fault) email1 case1 graph_access nova_access start
    = (Ok tt, w')
  /\ exists mime doc_uuid,
       env_get_email_as_mime (env [] no_fault) start email1 graph_access = Ok mime
       /\ env_upload_document (env [] no_fault) (log (returned (GetEmailAsMime email1)) start)
            mime "Email kvittering.eml" nova_access = Ok doc_uuid
       /\ trace w' =
            trace start
            ++ [returned (GetEmailAsMime email1);
                returned (UploadDocument mime "Email kvittering.eml");
                returned (AttachDocumentToCase (case_uuid case1)
                            {| document_uuid := doc_uuid;
                               document_title := "Email kvittering";
                               document_sensitivity := "Fortrolige";
                               document_type := "Indgående";
                               document_date := received_time email1;
                               approved := true;
                               description := "Automatisk journaliseret af robot." |})]
       /\ queue w' = queue start
       /\ uuid_draws w' = uuid_draws start.
Proof.
  intros w'.
  assert (H : attach_email_to_case (env [] no_fault) email1 case1 graph_access nova_access
                start = (Ok tt, w')) by (vm_compute; reflexivity).
  split; [exact H|].
  exact (attach_email_to_case_returns (env [] no_fault) email1 case1 graph_access
           nova_access start w' H).
Defined.

Lemma attach_email_to_case_raises_witness :
  let fault := attach_fault "2024-03-05T09:12:44+00:00" in
  let exc := LibraryError "HTTPError" "500 Server Error: Internal Server Error" in
  let w' := snd (attach_email_to_case (env [] fault) email1 case1
                   graph_access nova_access start) in
  attach_email_to_case (env [] fault) email1 case1 graph_access nova_access start
    = (Raise exc, w')
  /\ exists before c,
       trace w' = trace start ++ before ++ [failed c exc]
       /\ Forall (fun ev => has_returned ev = true) before
       /\ Forall (fun ev => is_attachment_step ev = true) (before ++ [failed c exc])
       /\ List.length before <= 2
       /\ count document_attached (before ++ [failed c exc]) = 0
       /\ queue w' = queue start
       /\ uuid_draws w' = uuid_draws start.
Proof.
  intros fault exc w'.
  assert (H : attach_email_to_case (env [] fault) email1 case1 graph_access nova_access
                start = (Raise exc, w')) by (vm_compute; reflexivity).
  split; [exact H|].
  exact (attach_email_to_case_raises (env [] fault) email1 case1 graph_access
           nova_access start w' exc H).
Defined.

Lemma create_case_raises_witness :
  let d := mkDatetime 2024 3 5 9 12 44 0 (Some 0%Z) in
  let e := LibraryError "TimeoutError" "" in
  let w' := snd (create_case (env [] silent_fault) "0101011234" d nova_access start) in
  create_case (env [] silent_fault) "0101011234" d nova_access start = (Raise e, w')
  /\ queue w' = queue start
  /\ ((env_get_address_by_cpr (env [] silent_fault) start "0101011234" nova_access = Raise e
       /\ trace w' = trace start ++ [failed (GetAddressByCpr "0101011234") e]
       /\ uuid_draws w' = uuid_draws start)
      \/ (e = KeyError "name"
          /\ (exists address,
                env_get_address_by_cpr (env [] silent_fault) start "0101011234" nova_access
                = Ok address
                /\ getitem address "name" = Raise (KeyError "name"))
          /\ trace w' = trace start ++ [returned (GetAddressByCpr "0101011234")]
          /\ uuid_draws w' = uuid_draws start)
      \/ (exists case,
            case_uuid case = env_uuid4 (env [] silent_fault) (uuid_draws start)
            /\ trace w' =
                 trace start
                 ++ [returned (GetAddressByCpr "0101011234"); failed (AddCase case) e]
            /\ uuid_draws w' = S (uuid_draws start))).
Proof.
  intros d e w'.
  assert (H : create_case (env [] silent_fault) "0101011234" d nova_access start
              = (Raise e, w')) by (vm_compute; reflexivity).
  split; [exact H|].
  exact (create_case_raises (env [] silent_fault) "0101011234" d nova_access start w' e H).
Defined.

Lemma handle_email_case_and_document_witness :
  let w' := snd (handle no_fault email1 start) in
  handle_email config (env [] no_fault) email1 graph_access nova_access start = (Ok tt, w')
  /\ exists cpr d name case mime doc,
       get_cpr_from_email email1 = Ok cpr
       /\ env_fromisoformat (env [] no_fault) (received_time email1) = Ok d
       /\ trace w' =
            trace start
            ++ [returned (CreateQueueElement (QUEUE_NAME config)
                            (cpr ++ " - " ++ received_time email1)%string);
                returned (GetAddressByCpr cpr);
                returned (AddCase case);
                returned (GetEmailAsMime email1);
                returned (UploadDocument mime "Email kvittering.eml");
                returned (AttachDocumentToCase (case_uuid case) doc);
                returned (MoveEmail email1 journalized_folder);
                returned (SetQueueElementStatus (fresh_id (queue start)) DONE None)]
       /\ case_uuid case = env_uuid4 (env [] no_fault) (uuid_draws start)
       /\ case_date case = d
       /\ case_parties case = [mkCaseParty "Primær" "CprNummer" cpr name None]
       /\ (exists w1 address,
             env_get_address_by_cpr (env [] no_fault) w1 cpr nova_access = Ok address
             /\ getitem address "name" = Ok name)
       /\ (exists w2, env_get_email_as_mime (env [] no_fault) w2 email1 graph_access = Ok mime)
       /\ (exists w3,
             env_upload_document (env [] no_fault) w3 mime "Email kvittering.eml" nova_access
             = Ok (document_uuid doc))
       /\ document_date doc = received_time email1
       /\ document_title doc = "Email kvittering"
       /\ uuid_draws w' = S (uuid_draws start).
Proof.
  intros w'.
  assert (H : handle_email config (env [] no_fault) email1 graph_access nova_access start
              = (Ok tt, w')) by (vm_compute; reflexivity).
  split; [exact H|].
  exact (handle_email_case_and_document config (env [] no_fault) email1 graph_access
           nova_access start w' H).
Defined.

Lemma handle_email_no_rollback_witness :
  let fault := attach_fault "2024-03-05T09:12:44+00:00" in
  let exc := LibraryError "HTTPError" "500 Server Error: Internal Server Error" in
  let d := mkDatetime 2024 3 5 9 12 44 0 (Some 0%Z) in
  let w' := snd (handle fault email1 start) in
  get_cpr_from_email email1 = Ok "0101011234"
  /\ env_fromisoformat (env [] fault) (received_time email1) = Ok d
  /\ handle_email config (env [] fault) email1 graph_access nova_access start = (Raise exc, w')
  /\ exists steps,
       trace w' =
         trace start
         ++ [returned (CreateQueueElement (QUEUE_NAME config)
                         ("0101011234" ++ " - " ++ received_time email1)%string)]
         ++ steps
         ++ [returned (SetQueueElementStatus (fresh_id (queue start)) FAILED
                         (Some (str_exc exc)))]
       /\ ((exists before c,
              steps = before ++ [failed c exc]
              /\ Forall (fun ev => has_returned ev = true) before
              /\ (is_attachment_step (failed c exc) = true
                  \/ is_move_email (failed c exc) = true ->
                  count case_created before = 1))
           \/ (exc = KeyError "name" /\ steps = [returned (GetAddressByCpr "0101011234")])).
Proof.
  intros fault exc d w'.
  assert (Hc : get_cpr_from_email email1 = Ok "0101011234") by reflexivity.
  assert (Hd : env_fromisoformat (env [] fault) (received_time email1) = Ok d) by reflexivity.
  assert (H : handle_email config (env [] fault) email1 graph_access nova_access start
              = (Raise exc, w')) by (vm_compute; reflexivity).
  repeat (split; [assumption|]).
  exact (handle_email_no_rollback config (env [] fault) email1 graph_access nova_access
           start w' "0101011234" d exc Hc Hd H).
Defined.

Lemma process_prologue_then_loop_witness :
  let r := fst (process config (env inbox no_fault) start) in
  let w' := snd (process config (env inbox no_fault) start) in
  process config (env inbox no_fault) start = (r, w')
  /\ ((exists e tr,
          r = Raise e
          /\ prologue_stop config e tr
          /\ trace w' = trace start ++ tr
          /\ queue w' = queue start
          /\ uuid_draws w' = uuid_draws start)
      \/ (exists gc nc ga na mails tr,
            (exists v, env_get_credential (env inbox no_fault) v (GRAPH_API config) = Ok gc)
            /\ (exists v, env_authorize (env inbox no_fault) v (username gc) (password gc)
                          = Ok ga)
            /\ (exists v, env_get_credential (env inbox no_fault) v (NOVA_API config) = Ok nc)
            /\ (exists v, env_nova_access (env inbox no_fault) v (username nc) (password nc)
                          = Ok na)
            /\ (exists v, env_get_emails_from_folder (env inbox no_fault) v
                            "kontrolteamet@mkb.aarhus.dk"
                            "Indbakke/Enlig forsørgerprojekt/Kvitteringer til journalisering" ga
                          = Ok mails)
            /\ trace w' =
                 trace start
                 ++ prologue config gc nc (List.length (filter selected mails))
                 ++ tr
            /\ (exists w0,
                  trace w' = trace w0 ++ tr
                  /\ for_each (filter selected mails)
                       (fun email => handle_email config (env inbox no_fault) email ga na) w0
                     = (r, w'))
            /\ (filter selected mails = [] ->
                r = Ok tt /\ tr = [] /\ queue w' = queue start))).
Proof.
  intros r w'.
  assert (H : process config (env inbox no_fault) start = (r, w'))
    by (vm_compute; reflexivity).
  split; [exact H|].
  exact (process_prologue_then_loop config (env inbox no_fault) start w' r H).
Defined.

Lemma process_returns_witness :
  let w' := snd (process config (env inbox no_fault) start) in
  process config (env inbox no_fault) start = (Ok tt, w')
  /\ exists gc nc ga mails tr els,
       (exists v, env_get_emails_from_folder (env inbox no_fault) v
                    "kontrolteamet@mkb.aarhus.dk"
                    "Indbakke/Enlig forsørgerprojekt/Kvitteringer til journalisering" ga
                  = Ok mails)
       /\ trace w' =
            trace start
            ++ prologue config gc nc (List.length (filter selected mails))
            ++ tr
       /\ queue w' = queue start ++ els
       /\ Forall2
            (fun email el =>
               exists cpr,
                 get_cpr_from_email email = Ok cpr
                 /\ reference el = (cpr ++ " - " ++ received_time email)%string
                 /\ queue_name el = QUEUE_NAME config
                 /\ status el = DONE
                 /\ message el = None)
            (filter selected mails) els
       /\ count email_moved tr = List.length (filter selected mails)
       /\ count case_created tr = List.length (filter selected mails)
       /\ count is_create_queue_element tr = List.length (filter selected mails).
Proof.
  intros w'.
  assert (H : process config (env inbox no_fault) start = (Ok tt, w'))
    by (vm_compute; reflexivity).
  split; [exact H|].
  exact (process_returns config (env inbox no_fault) start w' H).
Defined.


Example process_status_calls_sample :
  let fault := attach_fault "2024-03-05T10:30:00+00:00" in
  let tr := trace (snd (process config (env inbox fault) start)) in
  count email_moved tr = 1
  /\ count is_done_update tr = 1
  /\ count is_failed_update tr = 1
  /\ count case_created tr = 2
  /\ count queue_element_created tr = 2.
Proof. vm_compute. repeat split. Qed.

Lemma process_case_identifiers_witness :
  let r := fst (process config (env inbox no_fault) start) in
  let w' := snd (process config (env inbox no_fault) start) in
  process config (env inbox no_fault) start = (r, w')
  /\ exists tr,
       trace w' = trace start ++ tr
       /\ uuid_draws start <= uuid_draws w'
       /\ submitted_uuids tr
          = map (env_uuid4 (env inbox no_fault))
              (seq (uuid_draws start) (uuid_draws w' - uuid_draws start))
       /\ NoDup (submitted_uuids tr)
       /\ forall k, k < uuid_draws start ->
            ~ In (env_uuid4 (env inbox no_fault) k) (submitted_uuids tr).
Proof.
  intros r w'.
  assert (H : process config (env inbox no_fault) start = (r, w'))
    by (vm_compute; reflexivity).
  split; [exact H|].
  destruct (process_case_identifiers config (env inbox no_fault) start w' r H)
    as (tr & Ht & Hle & Hs & Hinj).
  exists tr. repeat (split; [assumption|]).
  exact (Hinj (sample_uuid4_injective inbox no_fault)).
Defined.

Example process_case_identifiers_sample :
  submitted_uuids (trace (snd (process config (env inbox no_fault) start)))
  = ["7d4440f2-5a3c-4b8e-9d1f-0"; "7d4440f2-5a3c-4b8e-9d1f-1"; "7d4440f2-5a3c-4b8e-9d1f-2"].
Proof. vm_compute. reflexivity. Qed.

Lemma get_cpr_stops_at_first_close_witness :
  get_cpr_from_email email1 = Ok "0101011234"
  /\ forall a b, "0101011234" = (a ++ "Adresse" ++ b)%string -> a = EmptyString.
Proof.
  assert (H : get_cpr_from_email email1 = Ok "0101011234") by reflexivity.
  split; [exact H|].
  exact (get_cpr_stops_at_first_close email1 "0101011234" H).
Defined.

Lemma get_cpr_ignores_appended_text_witness :
  let extra := String "010" "Med venlig hilsen CPR-nummer9999999999Adresse" in
  get_cpr_from_email email1 = Ok "0101011234"
  /\ get_cpr_from_email (with_text_appended email1 extra) = Ok "0101011234".
Proof.
  intros extra.
  assert (H : get_cpr_from_email email1 = Ok "0101011234") by reflexivity.
  split; [exact H|].
  exact (get_cpr_ignores_appended_text email1 "0101011234" extra H).
Defined.

Lemma get_cpr_round_trip_witness :
  let pre := "Navn Christian Jensen, CPR nr. " in
  let g := ": 010101-1234 " in
  let post := " Vej 1" in
  let email := mkEmail "kontrolteamet@mkb.aarhus.dk" "AAMkAD-8" "2024-03-05T09:12:44+00:00"
                 "noreply@aarhus.dk" "Erklæring - økonomisk fripladstilskud"
                 (pre ++ "CPR-nummer" ++ g ++ "Adresse" ++ post)%string in
  text email = (pre ++ "CPR-nummer" ++ g ++ "Adresse" ++ post)%string
  /\ g <> EmptyString
  /\ has_newline g = false
  /\ occurs "CPR-nummer" (pre ++ "CPR-numme") = false
  /\ occurs "Adresse" (g ++ "Adress") = false
  /\ get_cpr_from_email email = Ok g.
Proof.
  intros pre g post email.
  assert (H1 : text email = (pre ++ "CPR-nummer" ++ g ++ "Adresse" ++ post)%string)
    by reflexivity.
  assert (H2 : g <> EmptyString) by discriminate.
  assert (H3 : has_newline g = false) by reflexivity.
  assert (H4 : occurs "CPR-nummer" (pre ++ "CPR-numme") = false) by reflexivity.
  assert (H5 : occurs "Adresse" (g ++ "Adress") = false) by reflexivity.
  repeat (split; [assumption|]).
  exact (get_cpr_round_trip email pre g post H1 H2 H3 H4 H5).
Defined.

End SampleRuns.
